(** * English/Arabic offline translator: chunking, detection, line mode,
      the document-job worker and the progress stream.

    Shallow embedding of [src/translate.py] (class [OfflineTranslator]),
    [src/main.py] (the Flask job worker) and [src/streamlit_app.py]
    (the streaming generator), with the properties of the specification
    stated and settled against it. *)

From Stdlib Require Import ZArith NArith QArith List Lia Ascii String.
From stdpp Require Import base list gmap.

Local Open Scope Z_scope.
Local Open Scope list_scope.

(** ** Python strings

    A Python [str] is a sequence of Unicode code points; the detector and
    [strip] look at code points, so a string is a list of them. *)

Abbreviation pystr := (list N).

(** ASCII literals: [py "abc"] is the Python string ['abc']. *)
Definition py (s : string) : pystr :=
  List.map N_of_ascii (list_ascii_of_string s).

Definition len (s : pystr) : Z := Z.of_nat (length s).

(** Truth value of a string ([if s:], [not s]). *)
Definition truthy (s : pystr) : bool :=
  match s with [] => false | _ :: _ => true end.

Definition in_range (lo hi c : N) : bool := ((lo <=? c) && (c <=? hi))%N.

(** [str.isspace] on one code point; it is also what [\s] matches in a
    [str] pattern of [re] (CPython: Py_UNICODE_ISSPACE). *)
Definition isspace (c : N) : bool :=
  in_range 0x09 0x0D c || in_range 0x1C 0x1F c || (c =? 0x20)%N
  || (c =? 0x85)%N || (c =? 0xA0)%N || (c =? 0x1680)%N
  || in_range 0x2000 0x200A c || (c =? 0x2028)%N || (c =? 0x2029)%N
  || (c =? 0x202F)%N || (c =? 0x205F)%N || (c =? 0x3000)%N.

Fixpoint lstrip (s : pystr) : pystr :=
  match s with
  | [] => []
  | c :: s' => if isspace c then lstrip s' else s
  end.

Definition rstrip (s : pystr) : pystr := rev (lstrip (rev s)).

(** [s.strip()] *)
Definition strip (s : pystr) : pystr := rstrip (lstrip s).

(** [s.split()]: the maximal runs of non-whitespace. [word] is the run
    being read, most recent code point first. *)
Fixpoint split_from (word : pystr) (s : pystr) : list pystr :=
  match s with
  | [] => if truthy word then [rev word] else []
  | c :: s' =>
      if isspace c
      then (if truthy word then rev word :: split_from [] s'
            else split_from [] s')
      else split_from (c :: word) s'
  end.

Definition split (s : pystr) : list pystr := split_from [] s.

(** [sep.join(parts)] *)
Fixpoint join (sep : pystr) (parts : list pystr) : pystr :=
  match parts with
  | [] => []
  | [p] => p
  | p :: ps => p ++ sep ++ join sep ps
  end.

(** The class [[.!?]] of the chunker's pattern. *)
Definition is_terminal (c : N) : bool :=
  (c =? 0x2E)%N || (c =? 0x21)%N || (c =? 0x3F)%N.

(** [re.split(r'[.!?]+', s)]: the text between the maximal runs of
    terminal punctuation, empty pieces kept. [piece] is the text read since
    the last run (most recent first); [in_run] says the previous code point
    belonged to a run. *)
Fixpoint re_split_from (piece : pystr) (in_run : bool) (s : pystr)
  : list pystr :=
  match s with
  | [] => [rev piece]
  | c :: s' =>
      if is_terminal c
      then (if in_run then re_split_from [] true s'
            else rev piece :: re_split_from [] true s')
      else re_split_from (c :: piece) false s'
  end.

Definition re_split (s : pystr) : list pystr := re_split_from [] false s.

(** ** Effects

    A call returns, raises an exception of class [Exception] (kept by its
    message, [str(e)]), or leaves through [sys.exit], whose [SystemExit]
    is not an [Exception]. Code runs on a state [S]. *)

Inductive outcome (A : Type) : Type :=
| Ok (a : A)
| Raise (msg : pystr)
| Exit (code : Z).
Arguments Ok {A} a.
Arguments Raise {A} msg.
Arguments Exit {A} code.

Definition M (S A : Type) : Type := S -> outcome A * S.

Definition ret {S A} (a : A) : M S A := fun s => (Ok a, s).

Definition bind {S A B} (m : M S A) (k : A -> M S B) : M S B :=
  fun s =>
    match m s with
    | (Ok a, s') => k a s'
    | (Raise msg, s') => (Raise msg, s')
    | (Exit code, s') => (Exit code, s')
    end.

Definition raise {S A} (msg : pystr) : M S A := fun s => (Raise msg, s).
Definition modify {S} (f : S -> S) : M S unit := fun s => (Ok tt, f s).

(** [try: body  except Exception as e: handler(str(e))] *)
Definition try_except {S A} (body : M S A) (handler : pystr -> M S A)
  : M S A :=
  fun s =>
    match body s with
    | (Raise msg, s') => handler msg s'
    | r => r
    end.

(** [try: body  finally: cleanup]: the cleanup runs on every way out; the
    way out of the body is kept unless the cleanup itself does not
    return. *)
Definition try_finally {S A} (body : M S A) (cleanup : M S unit) : M S A :=
  fun s =>
    let (r, s') := body s in
    match cleanup s' with
    | (Ok _, s'') => (r, s'')
    | (Raise msg, s'') => (Raise msg, s'')
    | (Exit code, s'') => (Exit code, s'')
    end.

Notation "x <- m ;; k" := (bind m (fun x => k))
  (at level 100, m at next level, right associativity).
Notation "m ;;; k" := (bind m (fun _ => k))
  (at level 100, right associativity).

(** What an outside call answers: a value, or the message of the
    exception it raised. *)
Inductive reply (A : Type) : Type :=
| Returns (a : A)
| Throws (msg : pystr).
Arguments Returns {A} a.
Arguments Throws {A} msg.

(** ** translate.py: the pure part of [OfflineTranslator] *)

Module Translator.

(** The character class of [detect_language]. *)
Definition is_arabic (c : N) : bool :=
  in_range 0x0600 0x06FF c || in_range 0x0750 0x077F c
  || in_range 0x08A0 0x08FF c || in_range 0xFB50 0xFDFF c
  || in_range 0xFE70 0xFEFF c.

(** [len(re.findall(r'[...]', text))] *)
Definition arabic_chars (text : pystr) : Z :=
  len (List.filter is_arabic text).

(** [len(re.sub(r'\s', '', text))] *)
Definition total_chars (text : pystr) : Z :=
  len (List.filter (fun c => negb (isspace c)) text).

(** The quotient [arabic_chars / total_chars], as an exact rational. *)
Definition arabic_ratio (text : pystr) : Q :=
  (inject_Z (arabic_chars text) / inject_Z (total_chars text))%Q.

Definition detect_language (text : pystr) : pystr :=
  if total_chars text =? 0 then py "en"
  else if Qlt_le_dec (3 # 10) (arabic_ratio text) then py "ar" else py "en".

(** The loop state of [chunk_text]. *)
Record chunker := { chunks : list pystr; current_chunk : pystr }.

(** One iteration of [for sentence in sentences]. *)
Definition chunk_step (max_length : Z) (st : chunker) (sentence : pystr)
  : chunker :=
  let sentence := strip sentence in
  if negb (truthy sentence) then st
  else if (len (current_chunk st) + len sentence >? max_length)
          && truthy (current_chunk st)
  then {| chunks := chunks st ++ [strip (current_chunk st)];
          current_chunk := sentence |}
  else if truthy (current_chunk st)
  then {| chunks := chunks st;
          current_chunk := current_chunk st ++ py ". " ++ sentence |}
  else {| chunks := chunks st; current_chunk := sentence |}.

Definition chunk_loop (max_length : Z) (sentences : list pystr) : chunker :=
  fold_left (chunk_step max_length) sentences
            {| chunks := []; current_chunk := [] |}.

Definition chunk_text (text : pystr) (max_length : Z) : list pystr :=
  let st := chunk_loop max_length (re_split text) in
  let chunks :=
    if truthy (current_chunk st)
    then chunks st ++ [strip (current_chunk st)]
    else chunks st in
  match chunks with
  | [] => [text]
  | _ :: _ => chunks
  end.

(** ** translate.py: the stateful part *)

(** The calls a translator makes that the properties speak of. *)
Inductive call : Type :=
| Detect (text : pystr)                  (* detect_language(text) *)
| Generate (direction chunk : pystr).    (* model.generate on a chunk *)

(** The translator object: the keys of [self.models] (and of
    [self.tokenizers], always the same) and the calls made so far. *)
Record state := { models : list pystr; calls : list call }.

Definition model_mapping (direction : pystr) : option pystr :=
  if decide (direction = py "en2ar") then Some (py "Helsinki-NLP/opus-mt-en-ar")
  else if decide (direction = py "ar2en") then Some (py "Helsinki-NLP/opus-mt-ar-en")
  else None.

Definition record (c : call) : M state unit :=
  modify (fun t => {| models := models t; calls := calls t ++ [c] |}).

Section Engine.

(** [MarianTokenizer.from_pretrained] and [MarianMTModel.from_pretrained]
    on a model name: [None] when both load, the message when one raises. *)
Variable from_pretrained : pystr -> option pystr.

(** Tokenize, [model.generate], decode, with the model of a direction. *)
Variable generate : pystr -> pystr -> reply pystr.

Definition load_model (direction : pystr) : M state unit :=
  fun t =>
    if bool_decide (direction ∈ models t) then (Ok tt, t)
    else match model_mapping direction with
         | None =>
             (Raise (py "Unsupported translation direction: " ++ direction), t)
         | Some model_name =>
             match from_pretrained model_name with
             | None =>
                 (Ok tt, {| models := direction :: models t;
                            calls := calls t |})
             | Some _ => (Exit 1, t)
             end
         end.

(** [translate_chunk(text, model, tokenizer)], the model and tokenizer
    being those [load_model] returned for [direction]. *)
Definition translate_chunk (text direction : pystr) : M state pystr :=
  if negb (truthy (strip text)) then ret []
  else
    record (Generate direction text) ;;;
    match generate direction text with
    | Returns translation => ret translation
    | Throws msg => raise msg
    end.

(** The loop [for i, chunk in enumerate(chunks)] of [translate_text]. *)
Fixpoint translate_chunks (translations : list pystr) (chunks : list pystr)
                          (direction : pystr) : M state (list pystr) :=
  match chunks with
  | [] => ret translations
  | chunk :: rest =>
      if truthy (strip chunk)
      then translation <- translate_chunk chunk direction ;;
           translate_chunks (translations ++ [translation]) rest direction
      else translate_chunks translations rest direction
  end.

(** [not direction] holds for [None] and for the empty string. *)
Definition given (direction : option pystr) : option pystr :=
  match direction with
  | Some d => if truthy d then Some d else None
  | None => None
  end.

Definition translate_text (text : pystr) (direction : option pystr)
  : M state pystr :=
  direction <-
    match given direction with
    | Some d => ret d
    | None =>
        record (Detect text) ;;;
        let detected_lang := detect_language text in
        ret (if decide (detected_lang = py "ar") then py "ar2en"
             else py "en2ar")
    end ;;
  load_model direction ;;;
  let chunks := chunk_text text 512 in
  translations <- translate_chunks [] chunks direction ;;
  ret (join (py " ") translations).

End Engine.

End Translator.

Import Translator.

(** ** main.py: line mode and the document-job worker *)

Module Main.

Inductive job_status : Type := pending | processing | completed | failed.

(** The payload stored under ['result']. *)
Record payload := {
  original_lines : list pystr;
  translated_lines : list pystr;
  word_count_original : Z;
  word_count_translated : Z;
  output_file : pystr
}.

(** An entry of the [tasks] dict: ['status'], and ['result'] and ['error']
    once they are set. *)
Record task := {
  status : job_status;
  result : option payload;
  error : option pystr
}.

(** What the worker does to the job table and to the file system. *)
Inductive effect : Type :=
| SetStatus (task_id : pystr) (s : job_status)
| WriteFile (path : pystr)
| RemoveFile (path : pystr).

(** The module's globals and the file system: the shared [translator], the
    [tasks] dict, the files by path, and the effects so far. *)
Record world := {
  translator : state;
  tasks : gmap pystr task;
  files : gmap pystr pystr;
  journal : list effect
}.

(** A call into the shared translator. *)
Definition lift {A} (m : M state A) : M world A :=
  fun w =>
    let (r, t) := m (translator w) in
    (r, {| translator := t; tasks := tasks w; files := files w;
           journal := journal w |}).

Definition is_linebreak (c : N) : bool :=
  in_range 0x0A 0x0D c || in_range 0x1C 0x1E c || (c =? 0x85)%N
  || (c =? 0x2028)%N || (c =? 0x2029)%N.

(** [s.splitlines()]; [after_cr] says the previous code point was a
    carriage return, which a line feed then completes. *)
Fixpoint splitlines_from (line : pystr) (after_cr : bool) (s : pystr)
  : list pystr :=
  match s with
  | [] => if truthy line then [rev line] else []
  | c :: s' =>
      if (c =? 0x0A)%N && after_cr then splitlines_from line false s'
      else if is_linebreak c
      then rev line :: splitlines_from [] (c =? 0x0D)%N s'
      else splitlines_from (c :: line) false s'
  end.

Definition splitlines (s : pystr) : list pystr := splitlines_from [] false s.

Definition count_words (lines : list pystr) : Z :=
  fold_right Z.add 0
    (List.map (fun line => Z.of_nat (length (split line)))
              (List.filter (fun line => truthy (strip line)) lines)).

Definition OUTPUT_DIR : pystr := py "translated_files".

Section Worker.

Variable from_pretrained : pystr -> option pystr.
Variable generate : pystr -> pystr -> reply pystr.

(** [PyPDF2.PdfReader] on the bytes of a file: the text of every page
    ([page.extract_text()], empty when there is none), or the message of
    what the reader raised. *)
Variable read_pdf : pystr -> reply (list pystr).

(** [open(path, 'w')]: [None] when the file opens, which creates it or
    empties it; the message when it raises, which leaves the file system
    as it was. *)
Variable open_w : pystr -> option pystr.

(** [f.write(text)] and the closing of [f], for the file just opened at
    [path]: [None] when both return, and the file then holds [text]; or
    the message of what was raised together with what had reached the file
    by then (nothing, for a text that cannot be encoded). *)
Variable f_write : pystr -> pystr -> option (pystr * pystr).

(** [repr] of a [str]: the quotes and the escapes are chosen from the
    string, the escapes by the interpreter's table of printable code
    points. *)
Variable repr : pystr -> pystr.

(** [os.path.splitext(p)[0]] and [os.path.join]. *)
Variable splitext_root : pystr -> pystr.
Variable path_join : pystr -> pystr -> pystr.

(** [str(KeyError(key))]: the [repr] of the one argument. *)
Definition key_error (key : pystr) : pystr := repr key.

Definition translate_lines (lines : list pystr) (direction : option pystr)
  : M state (list pystr) :=
  (fix comprehension (lines : list pystr) : M state (list pystr) :=
     match lines with
     | [] => ret []
     | line :: rest =>
         translated <-
           (if truthy (strip line)
            then translate_text from_pretrained generate line direction
            else ret []) ;;
         others <- comprehension rest ;;
         ret (translated :: others)
     end) lines.

Definition extract_pdf_lines (pdf_file_path : pystr) : M world (list pystr) :=
  fun w =>
    match files w !! pdf_file_path with
    | None => (Ok [], w)
    | Some content =>
        match read_pdf content with
        | Throws _ => (Ok [], w)
        | Returns pages =>
            (Ok (concat (List.map splitlines (List.filter truthy pages))), w)
        end
    end.

(** [tasks[task_id][key] = value], with the effect it leaves. *)
Definition set_item (task_id : pystr) (f : task -> task) (e : list effect)
  : M world unit :=
  fun w =>
    match tasks w !! task_id with
    | None => (Raise (key_error task_id), w)
    | Some t =>
        (Ok tt, {| translator := translator w;
                   tasks := <[task_id := f t]> (tasks w);
                   files := files w;
                   journal := journal w ++ e |})
    end.

Definition set_status (task_id : pystr) (s : job_status) : M world unit :=
  set_item task_id
    (fun t => {| status := s; result := result t; error := error t |})
    [SetStatus task_id s].

Definition set_result (task_id : pystr) (r : payload) : M world unit :=
  set_item task_id
    (fun t => {| status := status t; result := Some r; error := error t |})
    [].

Definition set_error (task_id : pystr) (msg : pystr) : M world unit :=
  set_item task_id
    (fun t => {| status := status t; result := result t; error := Some msg |})
    [].

(** [with open(path, 'w', encoding='utf-8') as f: f.write(text)] *)
Definition write_text (path text : pystr) : M world unit :=
  fun w =>
    match open_w path with
    | Some msg => (Raise msg, w)
    | None =>
        match f_write path text with
        | None =>
            (Ok tt, {| translator := translator w; tasks := tasks w;
                       files := <[path := text]> (files w);
                       journal := journal w ++ [WriteFile path] |})
        | Some (msg, written) =>
            (Raise msg, {| translator := translator w; tasks := tasks w;
                           files := <[path := written]> (files w);
                           journal := journal w ++ [WriteFile path] |})
        end
    end.

(** [if os.path.exists(path): os.remove(path)] *)
Definition remove_if_exists (path : pystr) : M world unit :=
  fun w =>
    match files w !! path with
    | None => (Ok tt, w)
    | Some _ =>
        (Ok tt, {| translator := translator w; tasks := tasks w;
                   files := delete path (files w);
                   journal := journal w ++ [RemoveFile path] |})
    end.

(** The [try] block of [run_translation_task]. *)
Definition task_body (task_id pdf_path original_filename : pystr)
                     (direction : option pystr) : M world unit :=
  set_status task_id processing ;;;
  original_lines <- extract_pdf_lines pdf_path ;;
  match original_lines with
  | [] => raise (py "Could not extract text from PDF.")
  | _ :: _ => ret tt
  end ;;;
  translated_lines <- lift (translate_lines original_lines direction) ;;
  let output_filename :=
    splitext_root original_filename ++ py "_translated.txt" in
  let output_path := path_join OUTPUT_DIR output_filename in
  write_text output_path (join [0x0A%N] translated_lines) ;;;
  let result :=
    {| original_lines := original_lines;
       translated_lines := translated_lines;
       word_count_original := count_words original_lines;
       word_count_translated := count_words translated_lines;
       output_file := output_path |} in
  set_status task_id completed ;;;
  set_result task_id result.

(** The [except Exception as e] block. *)
Definition task_failed (task_id : pystr) (e : pystr) : M world unit :=
  set_status task_id failed ;;;
  set_error task_id e.

Definition run_translation_task (task_id pdf_path original_filename : pystr)
                                (direction : option pystr) : M world unit :=
  try_finally
    (try_except (task_body task_id pdf_path original_filename direction)
                (task_failed task_id))
    (remove_if_exists pdf_path).

End Worker.

End Main.

(** ** streamlit_app.py: the progress stream *)

Module Streamlit.

(** The session: the shared [translator] and the list objects alive, by
    address. A yielded list is the address of the generator's own
    [translated], not a copy. *)
Record session := { translator : state; heap : list (list pystr) }.

Definition lift {A} (m : M state A) : M session A :=
  fun s =>
    let (r, t) := m (translator s) in
    (r, {| translator := t; heap := heap s |}).

(** [translated = []] *)
Definition new_list : M session nat :=
  fun s =>
    (Ok (length (heap s)),
     {| translator := translator s; heap := heap s ++ [[]] |}).

(** [translated.append(x)] *)
Definition append (translated : nat) (x : pystr) : M session unit :=
  fun s =>
    match heap s !! translated with
    | Some l =>
        (Ok tt, {| translator := translator s;
                   heap := <[translated := l ++ [x]]> (heap s) |})
    | None => (Ok tt, s)
    end.

(** A generator object of [translate_lines_streaming]: not started,
    suspended at its [yield] with the loop at index [i], or finished. *)
Inductive generator : Type :=
| Created (lines : list pystr) (direction : option pystr)
| Suspended (lines : list pystr) (direction : option pystr)
            (translated : nat) (i : nat)
| Finished.

(** What [next] hands to the consumer. *)
Inductive item : Type :=
| Yield (translated : nat) (current total : Z)
| StopIteration.

Section Stream.

Variable from_pretrained : pystr -> option pystr.
Variable generate : pystr -> pystr -> reply pystr.

(** The loop body from index [i] to the next [yield]. *)
Definition resume (lines : list pystr) (direction : option pystr)
                  (translated : nat) (i : nat) : M session (item * generator) :=
  match lines !! i with
  | None => ret (StopIteration, Finished)
  | Some line =>
      translated_line <-
        (if truthy (strip line)
         then lift (translate_text from_pretrained generate line direction)
         else ret []) ;;
      append translated translated_line ;;;
      ret (Yield translated (Z.of_nat i + 1) (Z.of_nat (length lines)),
           Suspended lines direction translated (i + 1))
  end.

(** [next(g)] *)
Definition next (g : generator) : M session (item * generator) :=
  match g with
  | Created lines direction =>
      translated <- new_list ;;
      resume lines direction translated 0
  | Suspended lines direction translated i =>
      resume lines direction translated i
  | Finished => ret (StopIteration, Finished)
  end.

(** What a consumer sees at a step: the content the yielded list has at
    that moment, and the two counters. *)
Definition view : Type := (list pystr * Z * Z)%type.

Definition look (translated : nat) : M session (list pystr) :=
  fun s => (Ok (default [] (heap s !! translated)), s).

(** [for translated_lines, current, total in g: ...], the consumer reading
    the list at every step; [None] when [fuel] steps do not exhaust the
    generator. *)
Fixpoint consume (fuel : nat) (g : generator) : M session (option (list view)) :=
  match fuel with
  | O => ret None
  | S fuel' =>
      step <- next g ;;
      match step with
      | (StopIteration, _) => ret (Some [])
      | (Yield translated current total, g') =>
          seen <- look translated ;;
          later <- consume fuel' g' ;;
          ret (option_map (cons (seen, current, total)) later)
      end
  end.

Definition translate_lines_streaming (lines : list pystr)
                                     (direction : option pystr) : generator :=
  Created lines direction.

End Stream.

End Streamlit.

(** * The vocabulary of the properties *)

Import Main.

(** A string that [strip] leaves alone and that is not empty: what the
    chunker keeps as a sentence. *)
Definition usable (s : pystr) : Prop :=
  s <> [] /\ lstrip s = s /\ lstrip (rev s) = rev s.

(** The sentences the loop of [chunk_text] keeps: the pieces of the
    split, stripped, the empty ones skipped. *)
Definition sentences (text : pystr) : list pystr :=
  List.filter truthy (List.map strip (re_split text)).

(** The summed length of the sentences of a run, separators left out. *)
Definition total_len (run : list pystr) : Z :=
  fold_right Z.add 0 (List.map len run).

Definition bounded (max_length : Z) (run : list pystr) : Prop :=
  (2 <= length run)%nat -> total_len run <= max_length.

(** The loop invariant of [chunk_text]: the chunks closed so far and the
    running chunk are the joins of consecutive runs of the sentences read
    so far. *)
Record chunk_inv (max_length : Z) (st : chunker) (read : list pystr)
                 (closed : list (list pystr)) (cur : list pystr) : Prop := {
  inv_chunks : chunks st = List.map (join (py ". ")) closed;
  inv_current : current_chunk st = join (py ". ") cur;
  inv_read : concat closed ++ cur = read;
  inv_usable : Forall usable read;
  inv_closed : Forall (fun r => r <> [] /\ bounded max_length r) closed;
  inv_cur : bounded max_length cur
}.

(** The length bound as the specification words it: a chunk is within
    [max_length], or it is one sentence that is itself longer. *)
Definition within_limit (text : pystr) (max_length : Z) : Prop :=
  forall c, In c (chunk_text text max_length) ->
    len c <= max_length \/ (In c (sentences text) /\ max_length < len c).

Definition nonblank (s : pystr) : bool := truthy (strip s).

(** The chunks of a text that reach the engine. *)
Definition units (text : pystr) : list pystr :=
  List.filter nonblank (chunk_text text 512).

(** The direction [translate_text] works with. *)
Definition resolve (direction : option pystr) (text : pystr) : pystr :=
  match given direction with
  | Some d => d
  | None =>
      if decide (detect_language text = py "ar") then py "ar2en" else py "en2ar"
  end.

Definition with_calls (t : state) (evs : list call) : state :=
  {| models := models t; calls := calls t ++ evs |}.

Definition loaded (d : pystr) (t : state) : state :=
  {| models := if bool_decide (d ∈ models t) then models t else d :: models t;
     calls := calls t |}.

Definition supported (d : pystr) : Prop :=
  exists name, model_mapping d = Some name.

Definition is_detect (c : call) : bool :=
  match c with Detect _ => true | Generate _ _ => false end.

(** C1 as the specification words it: one detection for the call, one
    direction for all its engine calls. *)
Definition one_detection_one_direction (cs : list call) : Prop :=
  length (List.filter is_detect cs) = 1%nat
  /\ exists d, forall d' chunk, In (Generate d' chunk) cs -> d' = d.

(** C8 as the specification words it: the five Arabic ranges
    [U+0600-06FF], [U+0750-077F], [U+08A0-08FF], [U+FB50-FDFF] and
    [U+FE70-FEFF], the number of code points of a text in them, the number
    of its code points that are not whitespace, and the ratio of the two. *)
Definition in_arabic_ranges (c : N) : Prop :=
  (0x0600 <= c <= 0x06FF \/ 0x0750 <= c <= 0x077F \/ 0x08A0 <= c <= 0x08FF
   \/ 0xFB50 <= c <= 0xFDFF \/ 0xFE70 <= c <= 0xFEFF)%N.

#[global] Instance in_arabic_ranges_dec (c : N) : Decision (in_arabic_ranges c).
Proof. unfold in_arabic_ranges. apply _. Defined.

Definition arabic_count (text : pystr) : Z :=
  Z.of_nat (length (filter in_arabic_ranges text)).

Definition non_whitespace_count (text : pystr) : Z :=
  Z.of_nat (length (filter (fun c => isspace c = false) text)).

Definition ratio_exceeds_threshold (text : pystr) : Prop :=
  non_whitespace_count text <> 0
  /\ (3 # 10 < inject_Z (arabic_count text)
                / inject_Z (non_whitespace_count text))%Q.

Section Vocabulary.

Variable from_pretrained : pystr -> option pystr.
Variable generate : pystr -> pystr -> reply pystr.
Variable read_pdf : pystr -> reply (list pystr).
Variable splitext_root : pystr -> pystr.
Variable path_join : pystr -> pystr -> pystr.

(** The engine answers every unit of [us], with [rs]. *)
Definition translates (d : pystr) (us rs : list pystr) : Prop :=
  Forall2 (fun u r => generate d u = Returns r) us rs.

(** The model of a direction is in the cache or can be loaded. *)
Definition loadable (t : state) (d : pystr) : Prop :=
  d ∈ models t
  \/ exists name, model_mapping d = Some name /\ from_pretrained name = None.

(** The calls of one [translate_text] that runs to its end. *)
Definition text_calls (direction : option pystr) (text : pystr) : list call :=
  match given direction with Some _ => [] | None => [Detect text] end
  ++ List.map (Generate (resolve direction text)) (units text).

(** The calls of one [translate_lines] that runs to its end. *)
Definition lines_calls (direction : option pystr) (lines : list pystr)
  : list call :=
  flat_map (fun line => if nonblank line then text_calls direction line else [])
           lines.

(** What line mode makes of one line. *)
Definition line_result (direction : option pystr) (line v : pystr) : Prop :=
  if nonblank line
  then exists rs, translates (resolve direction line) (units line) rs
                  /\ v = join (py " ") rs
  else v = [].

(** Nothing fails on these lines: for every non-blank one the model of its
    direction is there or loads, and the engine answers all its units. *)
Definition answers (t : state) (direction : option pystr) (lines : list pystr)
  : Prop :=
  forall line, In line lines -> nonblank line = true ->
    loadable t (resolve direction line)
    /\ exists rs, translates (resolve direction line) (units line) rs.

(** C7 as the specification words it: the result is as long as the input,
    blank lines give the empty string, and a non-blank line gives what the
    engine answers on that line. *)
Definition engine_on_each_line (generate : pystr -> pystr -> reply pystr)
    (direction : option pystr) (lines out : list pystr) : Prop :=
  length out = length lines
  /\ forall i line, lines !! i = Some line ->
       if nonblank line
       then exists v, out !! i = Some v
                      /\ generate (resolve direction line) line = Returns v
       else out !! i = Some [].

Definition not_remove (e : effect) : Prop := forall p, e <> RemoveFile p.

(** A step that removes no file, forgets no job, and only adds to the
    journal, nothing of it a removal. *)
Record quiet (w w1 : world) : Prop := {
  quiet_files : forall p, is_Some (files w !! p) -> is_Some (files w1 !! p);
  quiet_tasks : forall id, is_Some (tasks w !! id) -> is_Some (tasks w1 !! id);
  quiet_journal :
    exists evs, journal w1 = journal w ++ evs /\ Forall not_remove evs
}.

Definition quietly {A} (m : M world A) : Prop :=
  forall w, quiet w (snd (m w)).

(** The lines [extract_pdf_lines] returns on a file system. *)
Definition extracted (fs : gmap pystr pystr) (path : pystr) : list pystr :=
  match fs !! path with
  | None => []
  | Some content =>
      match read_pdf content with
      | Throws _ => []
      | Returns pages => concat (List.map splitlines (List.filter truthy pages))
      end
  end.

Definition output_path (original_filename : pystr) : pystr :=
  path_join OUTPUT_DIR (splitext_root original_filename ++ py "_translated.txt").

(** The worker returned to its caller and left the job failed with [msg]. *)
Definition failed_with (r : outcome unit * world) (task_id msg : pystr) : Prop :=
  fst r = Ok tt
  /\ exists job, tasks (snd r) !! task_id = Some job
                 /\ status job = failed /\ error job = Some msg.

(** Persisting [text] at [path] raises [msg]: opening the file does, or the
    file opens and the write into it does. *)
Definition write_raises (open_w : pystr -> option pystr)
    (f_write : pystr -> pystr -> option (pystr * pystr))
    (path text msg : pystr) : Prop :=
  open_w path = Some msg
  \/ (open_w path = None
      /\ exists written, f_write path text = Some (msg, written)).

(** What the consumer sees while the lines after the first [i] are
    translated into [out], the list holding [acc] before. *)
Definition views (acc : list pystr) (i : nat) (total : Z) (out : list pystr)
  : list Streamlit.view :=
  imap (fun k _ => (acc ++ take (S k) out, Z.of_nat (i + S k), total)) out.

End Vocabulary.

(** ** Stand-ins for the outside world

    Every model loads, and the engine answers a chunk with the chunk behind
    a tag of its direction. *)

Definition stub_pretrained (name : pystr) : option pystr := None.

Definition stub_generate (direction chunk : pystr) : reply pystr :=
  Returns (py "[" ++ direction ++ py "] " ++ chunk).

Definition fresh : state := {| models := []; calls := [] |}.

Definition hello : pystr := py "Hello".

(** The Arabic word for hello, five letters of the range U+0600-06FF. *)
Definition marhaba : pystr := [0x645; 0x631; 0x62D; 0x628; 0x627]%N.

Definition hi_there : pystr := py "Hi there. How are you?".

(** C3 as the specification words it: two units go to the engine, its two
    answers come back joined by one space, and the text counts 4 words. *)
Definition two_units_four_words (generate : pystr -> pystr -> reply pystr)
    (d : pystr) (r : outcome pystr * state) : Prop :=
  (exists u1 u2 r1 r2,
      calls (snd r) = [Generate d u1; Generate d u2]
      /\ generate d u1 = Returns r1 /\ generate d u2 = Returns r2
      /\ fst r = Ok (r1 ++ py " " ++ r2))
  /\ count_words [hi_there] = 4.

(** Files that open and take what is written, and the [repr] of a string
    of letters, digits and hyphens. *)
Definition stub_open (path : pystr) : option pystr := None.
Definition stub_write (path text : pystr) : option (pystr * pystr) := None.
Definition stub_repr (s : pystr) : pystr := py "'" ++ s ++ py "'".

(** A disk that is full: the file opens, nothing of the text reaches it.
    And a directory that is not there: no file opens. *)
Definition full_disk (path text : pystr) : option (pystr * pystr) :=
  Some (py "[Errno 28] No space left on device", []).
Definition missing_dir (path : pystr) : option pystr :=
  Some (py "[Errno 2] No such file or directory: " ++ stub_repr path).
Definition stub_splitext (p : pystr) : pystr := p.
Definition stub_join (a b : pystr) : pystr := a ++ py "/" ++ b.

(** A reader that finds one page of two lines, and one that gives up. *)
Definition good_pdf (content : pystr) : reply (list pystr) :=
  Returns [py "Hello." ++ [0x0A%N] ++ py "World"].
Definition broken_pdf (content : pystr) : reply (list pystr) :=
  Throws (py "EOF marker not found").

(** An engine that raises, and a model that does not load. *)
Definition failing_generate (direction chunk : pystr) : reply pystr :=
  Throws (py "CUDA out of memory").
Definition missing_pretrained (name : pystr) : option pystr :=
  Some (py "Connection error").

Definition job_id : pystr := py "job-1".
Definition tmp_pdf : pystr := py "/tmp/tmpab12.pdf".

(** The world as the endpoint leaves it when it starts the worker. *)
Definition started : world :=
  {| translator := fresh;
     tasks := {[ job_id := {| status := pending; result := None;
                              error := None |} ]};
     files := {[ tmp_pdf := py "%PDF-1.4" ]};
     journal := [] |}.

Definition new_session : Streamlit.session :=
  {| Streamlit.translator := fresh; Streamlit.heap := [] |}.

(** ** More stand-ins *)

(** A text of two sentences of 300 code points, too long for one chunk of
    512, and an engine that raises on a chunk starting with [b]. *)
Definition long_text : pystr :=
  repeat 0x61%N 300 ++ py ". " ++ repeat 0x62%N 300.

Definition picky_generate (direction chunk : pystr) : reply pystr :=
  match chunk with
  | 0x62%N :: _ => Throws (py "CUDA out of memory")
  | _ => Returns chunk
  end.

(** * main.py: the endpoints *)

Module Api.

(** The JSON object of a [/translate/text] request: its ['text'] and
    ['direction'] keys, when present. *)
Record text_body := {
  body_text : option pystr;
  body_direction : option pystr
}.

(** The answers of [/translate/text]: the 400 with its error, or the 200
    with the four fields of the response. *)
Inductive text_response : Type :=
| TextBadRequest (message : pystr)
| TextOk (original translated : list pystr)
         (words_original words_translated : Z).




(** The thread the endpoint starts: the arguments of
    [run_translation_task]. *)
Record thread := {
  thread_task_id : pystr;
  thread_pdf_path : pystr;
  thread_original_filename : pystr;
  thread_direction : option pystr
}.

(** The answers of [/status/<task_id>]: the 404, or the 200 with the status
    and, when the key is set, the ['result'] or the ['error'] as
    [task.get] reads it. *)
Inductive status_response : Type :=
| StatusNotFound (message : pystr)
| StatusFound (task_id : pystr) (s : job_status)
              (result_key : option (option payload))
              (error_key : option (option pystr)).

Section Endpoints.

Variable from_pretrained : pystr -> option pystr.
Variable generate : pystr -> pystr -> reply pystr.
Variable read_pdf : pystr -> reply (list pystr).
Variable open_w : pystr -> option pystr.
Variable f_write : pystr -> pystr -> option (pystr * pystr).
Variable repr : pystr -> pystr.
Variable splitext_root : pystr -> pystr.
Variable path_join : pystr -> pystr -> pystr.

(** [translate_text_endpoint], on what [request.get_json()] gave. *)
Definition translate_text_endpoint (data : option text_body)
  : M state text_response :=
  match data with
  | None =>
      ret (TextBadRequest (py "Invalid request. 'text' key is required."))
  | Some body =>
      match body_text body with
      | None =>
          ret (TextBadRequest (py "Invalid request. 'text' key is required."))
      | Some text =>
          let original_lines := splitlines text in
          let direction := body_direction body in
          translated_lines <-
            translate_lines from_pretrained generate original_lines direction ;;
          ret (TextOk original_lines translated_lines
                      (count_words original_lines)
                      (count_words translated_lines))
      end
  end.

(** The thread's target. *)
Definition run (th : thread) : M world unit :=
  run_translation_task from_pretrained generate read_pdf open_w f_write repr
                       splitext_root path_join
                       (thread_task_id th) (thread_pdf_path th)
                       (thread_original_filename th) (thread_direction th).

End Endpoints.




(** [get_status] *)
Definition get_status (task_id : pystr) (w : world) : status_response :=
  match tasks w !! task_id with
  | None => StatusNotFound (py "Task not found.")
  | Some task =>
      match status task with
      | completed => StatusFound task_id completed (Some (result task)) None
      | failed => StatusFound task_id failed None (Some (error task))
      | s => StatusFound task_id s None None
      end
  end.

End Api.


(** ** More vocabulary *)

(** Every run of [m] relates the world before to the world after by [R]. *)
Definition respects {A} (R : world -> world -> Prop) (m : M world A) : Prop :=
  forall w, R w (snd (m w)).

(** What a worker for [task_id], reading [pdf_path] and writing [output],
    leaves as it was: the other jobs and the other files. *)
Record untouched (task_id pdf_path output : pystr) (w w1 : world) : Prop := {
  other_tasks : forall id, id <> task_id -> tasks w1 !! id = tasks w !! id;
  other_files :
    forall p, p <> pdf_path -> p <> output -> files w1 !! p = files w !! p
}.

(** The payload of a completed job agrees with the run that made it: the
    lines of [source], as many translated lines, their word counts, and the
    output file holding the translated lines one per line. *)
Definition payload_agrees (source : list pystr) (output : pystr)
    (fs : gmap pystr pystr) (r : payload) : Prop :=
  original_lines r = source
  /\ length (translated_lines r) = length source
  /\ word_count_original r = count_words source
  /\ word_count_translated r = count_words (translated_lines r)
  /\ output_file r = output
  /\ fs !! output = Some (join [0x0A%N] (translated_lines r)).

(** A job ended: failed with an error, or completed with a result. *)
Definition ended (job : task) : Prop :=
  (status job = failed /\ exists msg, error job = Some msg)
  \/ (status job = completed /\ exists r, result job = Some r).

(** * streamlit_app.py: the extraction and the display loop *)

Module Ui.

(** Python's [l[i]] on a list: a negative index counts from the end;
    [None] is the [IndexError]. *)
Definition getitem {A} (l : list A) (i : Z) : option A :=
  if 0 <=? i then l !! Z.to_nat i
  else if - Z.of_nat (length l) <=? i
  then l !! Z.to_nat (Z.of_nat (length l) + i)
  else None.

Section Pdf.

(** [PyPDF2.PdfReader] on the bytes of a file: it raises, or gives the
    pages, and [page.extract_text()] of each returns its text (empty when
    there is none) or raises. *)
Variable page_reader : pystr -> reply (list (reply pystr)).

(** The loop [for page in reader.pages] inside the [try]: what is raised
    ends it, and the lines read so far stay. *)
Fixpoint extend_lines (lines : list pystr) (pages : list (reply pystr))
  : list pystr :=
  match pages with
  | [] => lines
  | Returns text :: rest =>
      if truthy text then extend_lines (lines ++ splitlines text) rest
      else extend_lines lines rest
  | Throws _ :: _ => lines
  end.

(** [extract_pdf_lines] of the Streamlit application, on the file system. *)
Definition extract_pdf_lines (fs : gmap pystr pystr) (pdf_file : pystr)
  : list pystr :=
  match fs !! pdf_file with
  | None => []
  | Some content =>
      match page_reader content with
      | Throws _ => []
      | Returns pages => extend_lines [] pages
      end
  end.

(** The texts of all the pages, or what the first failing page raised: the
    reader as the [try] block of [main.py] sees it. *)
Fixpoint texts_of (pages : list (reply pystr)) : reply (list pystr) :=
  match pages with
  | [] => Returns []
  | Throws msg :: _ => Throws msg
  | Returns text :: rest =>
      match texts_of rest with
      | Returns texts => Returns (text :: texts)
      | Throws msg => Throws msg
      end
  end.

Definition whole_reader (content : pystr) : reply (list pystr) :=
  match page_reader content with
  | Throws msg => Throws msg
  | Returns pages => texts_of pages
  end.

End Pdf.

(** The two texts the loop builds for the two columns. *)
Record display := { orig_full_text : pystr; trans_full_text : pystr }.

(** The body of [for translated_lines, current, total in ...], on the list
    as it is read at that step; [None] is an [IndexError]. The progress bar
    and the containers are left out. *)
Definition show_step (lines : list pystr) (d : display) (v : Streamlit.view)
  : option display :=
  let '(translated_lines, current, total) := v in
  if current <=? Z.of_nat (length lines) then
    match getitem lines (current - 1) with
    | None => None
    | Some line =>
        let orig := orig_full_text d ++ line ++ [0x0A%N] in
        if current <=? Z.of_nat (length translated_lines) then
          match getitem translated_lines (current - 1) with
          | None => None
          | Some translated =>
              if truthy translated
              then Some {| orig_full_text := orig;
                           trans_full_text :=
                             trans_full_text d ++ translated ++ [0x0A%N] |}
              else Some {| orig_full_text := orig;
                           trans_full_text := trans_full_text d |}
          end
        else Some {| orig_full_text := orig;
                     trans_full_text := trans_full_text d |}
    end
  else Some d.

(** The whole loop, from the two empty texts. *)
Definition show_all (lines : list pystr) (steps : list Streamlit.view)
  : option display :=
  fold_left (fun d v => match d with
                        | Some d => show_step lines d v
                        | None => None
                        end)
            steps
            (Some {| orig_full_text := []; trans_full_text := [] |}).

End Ui.

(** * translate.py: the file mode of the command line *)

Module Cli.

(** [s.endswith(suffix)] *)
Definition endswith (s suffix : pystr) : bool :=
  bool_decide (drop (length s - length suffix) s = suffix).

Section Files.

Variable from_pretrained : pystr -> option pystr.
Variable generate : pystr -> pystr -> reply pystr.
Variable page_reader : pystr -> reply (list (reply pystr)).
Variable open_w : pystr -> option pystr.
Variable f_write : pystr -> pystr -> option (pystr * pystr).
Variable repr : pystr -> pystr.

(** [str.lower], and the UTF-8 decoding of [f.read()] on the bytes of a
    text file (it returns the text or raises). *)
Variable lower : pystr -> pystr.
Variable decode : pystr -> reply pystr.

(** [extract_text_from_pdf] *)
Definition extract_text_from_pdf (pdf_path : pystr) : M world pystr :=
  fun w =>
    match files w !! pdf_path with
    | None => (Exit 1, w)
    | Some content =>
        match Ui.whole_reader page_reader content with
        | Throws _ => (Exit 1, w)
        | Returns texts =>
            (Ok (concat (List.map (fun page_text => page_text ++ [0x0A%N])
                                  (List.filter truthy texts))), w)
        end
    end.

(** [with open(input_file, 'r', encoding='utf-8') as f: text = f.read()] *)
Definition read_text (input_file : pystr) : M world pystr :=
  fun w =>
    match files w !! input_file with
    | None =>
        (Raise (py "[Errno 2] No such file or directory: "
                ++ repr input_file), w)
    | Some content =>
        match decode content with
        | Returns text => (Ok text, w)
        | Throws msg => (Raise msg, w)
        end
    end.

(** The [try] block of [translate_file]. *)
Definition translate_file_body (input_file output_file : pystr)
                               (direction : option pystr) : M world unit :=
  text <-
    (if endswith (lower input_file) (py ".pdf")
     then extract_text_from_pdf input_file
     else read_text input_file) ;;
  translated_text <-
    lift (translate_text from_pretrained generate text direction) ;;
  write_text open_w f_write output_file translated_text.

(** [translate_file]: both [except] clauses print and call [sys.exit(1)]. *)
Definition translate_file (input_file output_file : pystr)
                          (direction : option pystr) : M world unit :=
  try_except (translate_file_body input_file output_file direction)
             (fun _ w => (Exit 1, w)).

End Files.

End Cli.

(** A reader whose first page has two lines and whose second page raises. *)
Definition torn_pdf (content : pystr) : reply (list (reply pystr)) :=
  Returns [Returns (py "Hello" ++ [0x0A%N] ++ py "World");
           Throws (py "Could not read page")].

(** The text file mode translates from an input file: the decoded content
    of a text file, or the texts of the pages of a PDF that are not empty,
    each followed by a line feed. *)
Definition source_text (page_reader : pystr -> reply (list (reply pystr)))
    (lower : pystr -> pystr) (decode : pystr -> reply pystr)
    (fs : gmap pystr pystr) (input_file text : pystr) : Prop :=
  match fs !! input_file with
  | None => False
  | Some content =>
      if Cli.endswith (lower input_file) (py ".pdf")
      then exists texts,
             Ui.whole_reader page_reader content = Returns texts
             /\ text = concat (List.map (fun page_text => page_text ++ [0x0A%N])
                                        (List.filter truthy texts))
      else decode content = Returns text
  end.

(** A file system with one text file, a [lower] for names that are already
    lower case, and a decoder that takes the bytes as the text. *)
Definition stub_lower (s : pystr) : pystr := s.
Definition stub_decode (content : pystr) : reply pystr := Returns content.

Definition notes_world : world :=
  {| translator := fresh; tasks := ∅;
     files := {[ py "notes.txt" := py "Hello" ]};
     journal := [] |}.

(** * Properties *)

(** ** Strings *)

Lemma truthy_true (s : pystr) : truthy s = true <-> s <> [].
Proof. destruct s; simpl; split; congruence. Qed.

Lemma truthy_false (s : pystr) : truthy s = false <-> s = [].
Proof. destruct s; simpl; split; congruence. Qed.

Lemma lstrip_length (s : pystr) : (length (lstrip s) <= length s)%nat.
Proof.
  induction s as [|c s IH]; simpl; [lia|].
  destruct (isspace c); simpl; lia.
Qed.

Lemma lstrip_head (c : N) (s : pystr) :
  lstrip (c :: s) = c :: s <-> isspace c = false.
Proof.
  simpl. destruct (isspace c); split; try congruence.
  intros H. pose proof (lstrip_length s) as L. rewrite H in L. simpl in L. lia.
Qed.

Lemma lstrip_idem (s : pystr) : lstrip (lstrip s) = lstrip s.
Proof.
  induction s as [|c s IH]; simpl; [reflexivity|].
  destruct (isspace c) eqn:E; [exact IH|].
  simpl. now rewrite E.
Qed.

Lemma lstrip_suffix (s : pystr) :
  exists p, s = p ++ lstrip s /\ Forall (fun c => isspace c = true) p.
Proof.
  induction s as [|c s (p & Hp & Hs)]; simpl.
  - exists []. split; [reflexivity | constructor].
  - destruct (isspace c) eqn:E.
    + exists (c :: p). split; [simpl; congruence | now constructor].
    + exists []. split; [reflexivity | constructor].
Qed.

Lemma lstrip_app_l (x y : pystr) :
  x <> [] -> lstrip x = x -> lstrip (x ++ y) = x ++ y.
Proof.
  destruct x as [|c x]; [congruence|].
  intros _ H. apply lstrip_head in H.
  change ((c :: x) ++ y) with (c :: (x ++ y)). now apply lstrip_head.
Qed.


Lemma usable_strip_id (s : pystr) : usable s -> strip s = s.
Proof.
  intros (_ & Hl & Hr). unfold strip, rstrip.
  rewrite Hl, Hr. apply rev_involutive.
Qed.

Lemma usable_strip (s : pystr) : truthy (strip s) = true -> usable (strip s).
Proof.
  intros Ht. apply truthy_true in Ht.
  unfold strip, rstrip in *.
  set (a := lstrip s) in *.
  destruct (lstrip_suffix (rev a)) as (p & Hp & _).
  set (b := lstrip (rev a)) in *.
  assert (Ha : a = rev b ++ rev p).
  { rewrite <- (rev_involutive a), Hp. apply rev_app_distr. }
  repeat split.
  - exact Ht.
  - destruct (rev b) as [|c r] eqn:Eb; [congruence|].
    assert (Hla : lstrip a = a) by apply lstrip_idem.
    rewrite Ha in Hla. simpl in Hla.
    change (lstrip (c :: (r ++ rev p)) = c :: (r ++ rev p)) in Hla.
    apply lstrip_head in Hla. now apply lstrip_head.
  - rewrite rev_involutive. apply lstrip_idem.
Qed.

Lemma usable_app (a m b : pystr) : usable a -> usable b -> usable (a ++ m ++ b).
Proof.
  intros (Ha & Hal & _) (Hb & _ & Hbr). repeat split.
  - destruct a; [congruence | discriminate].
  - now apply lstrip_app_l.
  - rewrite !rev_app_distr, <- app_assoc. apply lstrip_app_l; [|exact Hbr].
    intros E. apply (f_equal (@rev N)) in E. rewrite rev_involutive in E.
    now apply Hb.
Qed.





(** ** The chunker *)

Lemma len_app (a b : pystr) : len (a ++ b) = len a + len b.
Proof. unfold len. rewrite length_app. lia. Qed.

Lemma len_nonneg (a : pystr) : 0 <= len a.
Proof. unfold len. lia. Qed.

Lemma join_cons2 (sep a b : pystr) (run : list pystr) :
  join sep (a :: b :: run) = a ++ sep ++ join sep (b :: run).
Proof. reflexivity. Qed.

Lemma join_snoc (sep s : pystr) (run : list pystr) :
  run <> [] -> join sep (run ++ [s]) = join sep run ++ sep ++ s.
Proof.
  induction run as [|a run IH]; [congruence|]. intros _.
  destruct run as [|b run]; [reflexivity|].
  change ((a :: b :: run) ++ [s]) with (a :: b :: (run ++ [s])).
  rewrite !join_cons2.
  change (b :: run ++ [s]) with ((b :: run) ++ [s]).
  rewrite IH by discriminate. now rewrite <- !app_assoc.
Qed.

Lemma join_usable (sep : pystr) (run : list pystr) :
  run <> [] -> Forall usable run -> usable (join sep run).
Proof.
  induction run as [|a run IH]; [congruence|]. intros _ H.
  inversion H as [|? ? Ha Hrun]; subst.
  destruct run as [|b run]; [exact Ha|].
  rewrite join_cons2. apply usable_app; [exact Ha|].
  apply IH; [discriminate | exact Hrun].
Qed.

Lemma join_truthy (sep : pystr) (run : list pystr) :
  Forall usable run -> truthy (join sep run) = true <-> run <> [].
Proof.
  intros H. split.
  - intros Ht E. subst. discriminate.
  - intros Hne. apply truthy_true. now apply join_usable.
Qed.

Lemma total_len_join (sep : pystr) (run : list pystr) :
  total_len run <= len (join sep run).
Proof.
  induction run as [|a run IH]; [reflexivity|].
  destruct run as [|b run].
  - unfold total_len. simpl. lia.
  - rewrite join_cons2, !len_app.
    change (total_len (a :: b :: run)) with (len a + total_len (b :: run)).
    pose proof (len_nonneg sep). lia.
Qed.

Lemma total_len_snoc (run : list pystr) (s : pystr) :
  total_len (run ++ [s]) = total_len run + len s.
Proof.
  unfold total_len. induction run as [|a run IH]; simpl; [lia|].
  simpl in IH. rewrite IH. lia.
Qed.

Lemma chunk_inv_cur_usable max_length st read closed cur :
  chunk_inv max_length st read closed cur -> Forall usable cur.
Proof.
  intros I. pose proof (inv_usable _ _ _ _ _ I) as H.
  rewrite <- (inv_read _ _ _ _ _ I) in H.
  apply Forall_app in H. tauto.
Qed.

Lemma chunk_step_inv max_length st read closed cur piece :
  chunk_inv max_length st read closed cur ->
  exists closed' cur',
    chunk_inv max_length (chunk_step max_length st piece)
              (read ++ List.filter truthy [strip piece]) closed' cur'.
Proof.
  intros I. pose proof (chunk_inv_cur_usable _ _ _ _ _ I) as Hcur.
  destruct I as [Hch Hcc Hrd Hus Hcl Hb].
  unfold chunk_step. simpl List.filter.
  destruct (truthy (strip piece)) eqn:Es; simpl negb; cbv iota.
  2:{ exists closed, cur. rewrite app_nil_r. now constructor. }
  pose proof (usable_strip _ Es) as Hs.
  assert (Hus' : Forall usable (read ++ [strip piece])).
  { apply Forall_app. split; [exact Hus | now constructor]. }
  destruct (truthy (current_chunk st)) eqn:Et.
  - assert (Hne : cur <> []).
    { rewrite Hcc in Et. now apply (join_truthy (py ". ") _ Hcur). }
    destruct (len (current_chunk st) + len (strip piece) >? max_length) eqn:Ec;
      simpl andb; cbv iota.
    + exists (closed ++ [cur]), [strip piece]. constructor; simpl.
      * rewrite Hch, Hcc, map_app. simpl.
        now rewrite (usable_strip_id _ (join_usable (py ". ") _ Hne Hcur)).
      * reflexivity.
      * rewrite concat_app. simpl. rewrite app_nil_r, <- app_assoc.
        now rewrite <- Hrd, <- app_assoc.
      * exact Hus'.
      * apply Forall_app. split; [exact Hcl|]. constructor; [|constructor].
        split; [exact Hne | exact Hb].
      * intros L. simpl in L. lia.
    + exists closed, (cur ++ [strip piece]). constructor; simpl.
      * exact Hch.
      * rewrite Hcc. symmetry. now apply join_snoc.
      * now rewrite app_assoc, Hrd.
      * exact Hus'.
      * exact Hcl.
      * intros _. rewrite total_len_snoc.
        pose proof (total_len_join (py ". ") cur) as T.
        rewrite <- Hcc in T. lia.
  - assert (He : cur = []).
    { destruct cur as [|a cur]; [reflexivity|]. exfalso.
      rewrite Hcc in Et.
      assert (truthy (join (py ". ") (a :: cur)) = true)
        by (apply (join_truthy (py ". ") _ Hcur); discriminate).
      congruence. }
    subst cur. rewrite andb_false_r.
    exists closed, [strip piece]. constructor; simpl.
    + exact Hch.
    + reflexivity.
    + now rewrite <- Hrd, <- app_assoc.
    + exact Hus'.
    + exact Hcl.
    + intros L. simpl in L. lia.
Qed.

Lemma chunk_fold_inv max_length pieces :
  forall st read closed cur,
    chunk_inv max_length st read closed cur ->
    exists closed' cur',
      chunk_inv max_length (fold_left (chunk_step max_length) pieces st)
                (read ++ List.filter truthy (List.map strip pieces))
                closed' cur'.
Proof.
  induction pieces as [|piece pieces IH]; intros st read closed cur I.
  - exists closed, cur. simpl. now rewrite app_nil_r.
  - destruct (chunk_step_inv _ _ _ _ _ piece I) as (c1 & u1 & I1).
    destruct (IH _ _ _ _ I1) as (c2 & u2 & I2).
    exists c2, u2. simpl fold_left.
    replace (read ++ List.filter truthy (List.map strip (piece :: pieces)))
      with ((read ++ List.filter truthy [strip piece])
              ++ List.filter truthy (List.map strip pieces)); [exact I2|].
    rewrite <- app_assoc. f_equal. simpl.
    now destruct (truthy (strip piece)).
Qed.

(** The shape of every result of [chunk_text]: the text itself when no
    sentence is kept; otherwise the joins of consecutive non-empty runs of
    the kept sentences, a run of two or more within [max_length] by the
    summed length of its sentences. *)
Lemma chunk_text_cases (text : pystr) (max_length : Z) :
  (sentences text = [] /\ chunk_text text max_length = [text])
  \/ (sentences text <> []
      /\ exists runs,
          chunk_text text max_length = List.map (join (py ". ")) runs
          /\ concat runs = sentences text
          /\ Forall (fun r => r <> [] /\ bounded max_length r) runs).
Proof.
  assert (I0 : chunk_inv max_length {| chunks := []; current_chunk := [] |}
                         [] [] []).
  { constructor; simpl; try reflexivity; try constructor.
    intros L. simpl in L. lia. }
  destruct (chunk_fold_inv max_length (re_split text) _ _ _ _ I0)
    as (closed & cur & I).
  simpl app in I. fold (sentences text) in I.
  fold (chunk_loop max_length (re_split text)) in I.
  pose proof (chunk_inv_cur_usable _ _ _ _ _ I) as Hcur.
  destruct I as [Hch Hcc Hrd Hus Hcl Hb].
  unfold chunk_text.
  set (st := chunk_loop max_length (re_split text)) in *.
  destruct (truthy (current_chunk st)) eqn:Et.
  - assert (Hne : cur <> []).
    { rewrite Hcc in Et. now apply (join_truthy (py ". ") _ Hcur). }
    right. split.
    { rewrite <- Hrd. destruct cur; [congruence|].
      intros E. apply app_eq_nil in E. destruct E; discriminate. }
    exists (closed ++ [cur]).
    rewrite Hch, Hcc, (usable_strip_id _ (join_usable (py ". ") _ Hne Hcur)).
    split; [|split].
    + rewrite map_app. simpl.
      destruct (List.map (join (py ". ")) closed); reflexivity.
    + rewrite concat_app. simpl. now rewrite app_nil_r.
    + apply Forall_app. split; [exact Hcl|]. constructor; [|constructor].
      split; [exact Hne | exact Hb].
  - assert (He : cur = []).
    { destruct cur as [|a cur]; [reflexivity|]. exfalso.
      rewrite Hcc in Et.
      assert (truthy (join (py ". ") (a :: cur)) = true)
        by (apply (join_truthy (py ". ") _ Hcur); discriminate).
      congruence. }
    subst cur. rewrite app_nil_r in Hrd. rewrite Hch.
    destruct closed as [|r closed].
    + left. simpl in Hrd. split; [now symmetry | reflexivity].
    + right. split.
      { rewrite <- Hrd. simpl. inversion Hcl as [|? ? [Hr _] _]; subst.
        destruct r; [congruence | discriminate]. }
      exists (r :: closed). split; [reflexivity|]. split; [exact Hrd | exact Hcl].
Qed.



(** C2, as stated, fails on the fallback: a text of punctuation only has no
    sentence, and comes back whole whatever its length. *)
Lemma chunk_text_fallback_over_limit : ~ within_limit (py "....") 3.
Proof.
  intros H. destruct (H (py "....")) as [L|[I _]].
  - vm_compute. left. reflexivity.
  - vm_compute in L. apply L. reflexivity.
  - vm_compute in I. exact I.
Qed.

(** The check of the loop leaves the separator out: two sentences of
    lengths 2 and 2 are joined under a limit of 5 into a chunk of 6. *)
Example chunk_text_separator_not_counted :
  chunk_text (py "ab. cd") 5 = [py "ab. cd"] /\ ~ within_limit (py "ab. cd") 5.
Proof.
  split; [vm_compute; reflexivity|].
  intros H. destruct (H (py "ab. cd")) as [L|[I _]].
  - vm_compute. left. reflexivity.
  - vm_compute in L. apply L. reflexivity.
  - vm_compute in I. destruct I as [I|[I|[]]]; discriminate I.
Qed.

(** The same with the default limit of 512: sentences of 255 and 256 code
    points give one chunk of 513. *)
Example chunk_text_separator_default_limit :
  let a := repeat 0x61%N 255 in
  let b := repeat 0x62%N 256 in
  chunk_text (a ++ py ". " ++ b) 512 = [a ++ py ". " ++ b]
  /\ len (a ++ py ". " ++ b) = 513.
Proof. vm_compute. split; reflexivity. Qed.

(** C2 (amended): a chunk is the whole text when no sentence is kept, or one
    whole sentence whatever its length, or the join of two or more whole
    consecutive sentences whose lengths sum to at most [max_length]. *)
Theorem chunk_text_bound (text : pystr) (max_length : Z) (c : pystr) :
  In c (chunk_text text max_length) ->
  (sentences text = [] /\ c = text)
  \/ In c (sentences text)
  \/ exists before run after,
       sentences text = before ++ run ++ after
       /\ (2 <= length run)%nat
       /\ c = join (py ". ") run
       /\ total_len run <= max_length.
Proof.
  intros Hin.
  destruct (chunk_text_cases text max_length) as [[E R]|[_ (runs & R & C & F)]].
  - left. rewrite R in Hin. destruct Hin as [<-|[]]. split; [exact E | reflexivity].
  - right. rewrite R in Hin. apply in_map_iff in Hin.
    destruct Hin as (run & <- & Hrun).
    destruct (in_split _ _ Hrun) as (l1 & l2 & ->).
    rewrite concat_app in C. simpl in C.
    apply Forall_app in F. destruct F as [_ F].
    inversion F as [|? ? [Hne Hb] _]; subst.
    destruct run as [|a [|b run]].
    + congruence.
    + left. rewrite <- C. apply in_or_app. right. simpl. now left.
    + right. exists (concat l1), (a :: b :: run), (concat l2).
      split; [now symmetry|]. split; [simpl; lia|]. split; [reflexivity|].
      apply Hb. simpl. lia.
Qed.

Lemma chunk_text_bound_witness :
  In (py "Hi. Yo") (chunk_text (py "Hi! Yo?") 512)
  /\ exists before run after,
       sentences (py "Hi! Yo?") = before ++ run ++ after
       /\ (2 <= length run)%nat
       /\ py "Hi. Yo" = join (py ". ") run
       /\ total_len run <= 512.
Proof.
  assert (Hin : In (py "Hi. Yo") (chunk_text (py "Hi! Yo?") 512))
    by (vm_compute; left; reflexivity).
  split; [exact Hin|].
  destruct (chunk_text_bound (py "Hi! Yo?") 512 (py "Hi. Yo") Hin)
    as [[E _]|[I|H]].
  - vm_compute in E. discriminate E.
  - vm_compute in I. destruct I as [I|[I|[]]]; discriminate I.
  - exact H.
Defined.

(** C4: [chunk_text] never returns the empty list, and when the split keeps
    no sentence the result is the text itself, alone and unchanged. *)
Theorem chunk_text_never_empty (text : pystr) (max_length : Z) :
  chunk_text text max_length <> []
  /\ (sentences text = [] -> chunk_text text max_length = [text]).
Proof.
  destruct (chunk_text_cases text max_length) as [[E R]|[Hne (runs & R & C & _)]].
  - rewrite R. split; [discriminate | reflexivity].
  - split; [|congruence].
    rewrite R. destruct runs; [|discriminate].
    simpl in C. congruence.
Qed.

Lemma chunk_text_never_empty_witness :
  sentences (py "?!  ..") = []
  /\ chunk_text (py "?!  ..") 512 = [py "?!  .."].
Proof.
  split; [vm_compute; reflexivity|].
  apply (proj2 (chunk_text_never_empty (py "?!  ..") 512)).
  vm_compute. reflexivity.
Defined.

Example chunk_text_empty_input : chunk_text [] 512 = [[]].
Proof. reflexivity. Qed.

(** ** The language detector *)

Lemma arabic_not_space (c : N) : is_arabic c = true -> isspace c = false.
Proof.
  unfold is_arabic, isspace, in_range. intros H.
  apply not_true_iff_false. intros S.
  repeat (progress rewrite ?orb_true_iff, ?andb_true_iff, ?N.leb_le, ?N.eqb_eq in H).
  repeat (progress rewrite ?orb_true_iff, ?andb_true_iff, ?N.leb_le, ?N.eqb_eq in S).
  lia.
Qed.

Lemma arabic_le_total (text : pystr) : arabic_chars text <= total_chars text.
Proof.
  unfold arabic_chars, total_chars, len.
  induction text as [|c text IH]; simpl; [lia|].
  destruct (is_arabic c) eqn:E.
  - rewrite (arabic_not_space c E). simpl. lia.
  - destruct (isspace c); simpl; lia.
Qed.

Lemma total_chars_blank (text : pystr) :
  Forall (fun c => isspace c = true) text -> total_chars text = 0.
Proof.
  unfold total_chars, len.
  induction 1 as [|c text Hc _ IH]; simpl; [reflexivity|].
  now rewrite Hc.
Qed.

Lemma ratio_over_threshold (text : pystr) :
  total_chars text <> 0 ->
  ((3 # 10 < arabic_ratio text)%Q
   <-> 3 * total_chars text < 10 * arabic_chars text).
Proof.
  intros Hne. unfold arabic_ratio, Qdiv, Qmult, Qinv, Qlt, inject_Z.
  assert (Hpos : 0 <= total_chars text) by apply len_nonneg.
  destruct (total_chars text) as [|p|p]; [congruence | | lia].
  cbn [Qnum Qden]. rewrite Pos.mul_1_l. lia.
Qed.

Lemma en_not_ar : py "en" <> py "ar".
Proof. intros H. vm_compute in H. discriminate H. Qed.

Lemma detect_language_cases (text : pystr) :
  (detect_language text = py "ar" \/ detect_language text = py "en")
  /\ (detect_language text = py "ar"
      <-> total_chars text <> 0 /\ (3 # 10 < arabic_ratio text)%Q)
  /\ (detect_language text = py "ar"
      <-> 3 * total_chars text < 10 * arabic_chars text)
  /\ (Forall (fun c => isspace c = true) text -> detect_language text = py "en").
Proof.
  pose proof (arabic_le_total text) as Hle.
  assert (Hpos : 0 <= arabic_chars text) by apply len_nonneg.
  unfold detect_language.
  destruct (Z.eqb_spec (total_chars text) 0) as [E0|Hne].
  - split; [now right|]. split; [|split].
    + split; [intros H; now apply en_not_ar in H | intros [H _]; congruence].
    + split; [intros H; now apply en_not_ar in H | lia].
    + reflexivity.
  - pose proof (ratio_over_threshold text Hne) as R.
    destruct (Qlt_le_dec (3 # 10) (arabic_ratio text)) as [L|G].
    + split; [now left|]. split; [|split].
      * split; [intros _; now split | reflexivity].
      * split; [intros _; now apply R | reflexivity].
      * intros B. now rewrite (total_chars_blank text B) in Hne.
    + apply Qle_not_lt in G.
      split; [now right|]. split; [|split].
      * split; [intros H; now apply en_not_ar in H | intros [_ H]; contradiction].
      * split; [intros H; now apply en_not_ar in H | intros H; apply R in H; contradiction].
      * reflexivity.
Qed.

(** The character class of the code is the five ranges, and its two counts
    are the two counts of the specification. *)
Lemma is_arabic_ranges (c : N) : is_arabic c = true <-> in_arabic_ranges c.
Proof.
  unfold is_arabic, in_arabic_ranges, in_range.
  repeat (progress rewrite ?orb_true_iff, ?andb_true_iff, ?N.leb_le).
  tauto.
Qed.

Lemma arabic_chars_count (text : pystr) : arabic_chars text = arabic_count text.
Proof.
  unfold arabic_chars, arabic_count, len. f_equal.
  induction text as [|c text IH]; [reflexivity|].
  rewrite filter_cons. simpl.
  destruct (is_arabic c) eqn:E; destruct (decide (in_arabic_ranges c)) as [R|R].
  - simpl. now rewrite IH.
  - apply is_arabic_ranges in E. contradiction.
  - apply is_arabic_ranges in R. congruence.
  - exact IH.
Qed.

Lemma total_chars_count (text : pystr) :
  total_chars text = non_whitespace_count text.
Proof.
  unfold total_chars, non_whitespace_count, len. f_equal.
  induction text as [|c text IH]; [reflexivity|].
  rewrite filter_cons. cbn [List.filter].
  destruct (decide (isspace c = false)) as [D|D].
  - rewrite D. cbn [negb length]. now rewrite IH.
  - apply not_false_is_true in D. rewrite D. exact IH.
Qed.

(** C8: with the five Arabic ranges and the two counts as the
    specification words them, the detector always returns one of the two
    labels; it returns the Arabic one exactly when there is a code point
    that is not whitespace and the ratio of the code points in the five
    ranges to those that are not whitespace is over 3/10 (that is,
    3 * total < 10 * arabic), the English one exactly when that is not so,
    and so the English one on empty or all-whitespace text. *)
Theorem detect_language_threshold (text : pystr) :
  (detect_language text = py "ar" \/ detect_language text = py "en")
  /\ (detect_language text = py "ar" <-> ratio_exceeds_threshold text)
  /\ (detect_language text = py "ar"
      <-> 3 * non_whitespace_count text < 10 * arabic_count text)
  /\ (detect_language text = py "en" <-> ~ ratio_exceeds_threshold text)
  /\ (Forall (fun c => isspace c = true) text -> detect_language text = py "en").
Proof.
  destruct (detect_language_cases text) as (L & R & Z3 & B).
  unfold ratio_exceeds_threshold.
  rewrite <- (arabic_chars_count text), <- (total_chars_count text).
  fold (arabic_ratio text).
  split; [exact L|]. split; [exact R|]. split; [exact Z3|]. split; [|exact B].
  split.
  - intros E H. apply R in H. rewrite E in H. now apply en_not_ar in H.
  - intros H. destruct L as [A|E]; [|exact E]. apply R in A. contradiction.
Qed.

(** Ten code points of the ranges among twenty that are not whitespace
    (ratio 1/2) are over the threshold, two among ten (ratio 1/5) and three
    among ten (ratio 3/10) are not, and a blank text has none to count. *)
Lemma detect_language_threshold_witness :
  (arabic_count (repeat 0x0645%N 10 ++ py " " ++ repeat 0x61%N 10) = 10
   /\ non_whitespace_count (repeat 0x0645%N 10 ++ py " " ++ repeat 0x61%N 10)
      = 20
   /\ detect_language (repeat 0x0645%N 10 ++ py " " ++ repeat 0x61%N 10)
      = py "ar")
  /\ (arabic_count (repeat 0x0645%N 2 ++ py " " ++ repeat 0x61%N 8) = 2
      /\ non_whitespace_count (repeat 0x0645%N 2 ++ py " " ++ repeat 0x61%N 8)
         = 10
      /\ detect_language (repeat 0x0645%N 2 ++ py " " ++ repeat 0x61%N 8)
         = py "en")
  /\ detect_language (repeat 0xFE70%N 3 ++ repeat 0x61%N 7) = py "en"
  /\ detect_language (py "   ") = py "en".
Proof.
  split; [|split; [|split]].
  - split; [vm_compute; reflexivity|]. split; [vm_compute; reflexivity|].
    apply (proj2 (proj1 (proj2 (proj2 (detect_language_threshold
             (repeat 0x0645%N 10 ++ py " " ++ repeat 0x61%N 10)))))).
    vm_compute. reflexivity.
  - split; [vm_compute; reflexivity|]. split; [vm_compute; reflexivity|].
    apply (proj2 (proj1 (proj2 (proj2 (proj2 (detect_language_threshold
             (repeat 0x0645%N 2 ++ py " " ++ repeat 0x61%N 8))))))).
    intros (_ & H). vm_compute in H. discriminate H.
  - apply (proj2 (proj1 (proj2 (proj2 (proj2 (detect_language_threshold
             (repeat 0xFE70%N 3 ++ repeat 0x61%N 7))))))).
    intros (_ & H). vm_compute in H. discriminate H.
  - apply (proj2 (proj2 (proj2 (proj2 (detect_language_threshold (py "   ")))))).
    repeat constructor.
Defined.

(** Ten Arabic letters among twenty non-space code points (ratio 1/2), and
    two among ten (ratio 1/5). *)
Example detect_language_half :
  detect_language (repeat 0x0645%N 10 ++ py " " ++ repeat 0x61%N 10) = py "ar".
Proof. vm_compute. reflexivity. Qed.

Example detect_language_fifth :
  detect_language (repeat 0x0645%N 2 ++ py " " ++ repeat 0x61%N 8) = py "en".
Proof. vm_compute. reflexivity. Qed.

(** At exactly 3/10 the detector answers English. *)
Example detect_language_at_threshold :
  detect_language (repeat 0x0645%N 3 ++ repeat 0x61%N 7) = py "en".
Proof. vm_compute. reflexivity. Qed.

(** ** The translator: what a call does to the shared object *)

Lemma with_calls_nil (t : state) : with_calls t [] = t.
Proof. destruct t. unfold with_calls. simpl. now rewrite app_nil_r. Qed.

Lemma with_calls_app (t : state) (a b : list call) :
  with_calls (with_calls t a) b = with_calls t (a ++ b).
Proof. unfold with_calls. simpl. now rewrite app_assoc. Qed.

Section TranslatorFacts.

Variable from_pretrained : pystr -> option pystr.
Variable generate : pystr -> pystr -> reply pystr.

Local Abbreviation translates := (translates generate).
Local Abbreviation loadable := (loadable from_pretrained).

Lemma load_model_ok (t : state) (d : pystr) :
  loadable t d -> load_model from_pretrained d t = (Ok tt, loaded d t).
Proof.
  intros L. unfold load_model, loaded. destruct t as [ms cs]. simpl in *.
  case_bool_decide as Hin; [reflexivity|].
  destruct L as [L|(name & Hm & Hp)]; [contradiction|].
  now rewrite Hm, Hp.
Qed.

Lemma load_model_spec (t : state) (d : pystr) :
  calls (snd (load_model from_pretrained d t)) = calls t
  /\ models t ⊆ models (snd (load_model from_pretrained d t))
  /\ (fst (load_model from_pretrained d t) = Ok tt ->
      loadable t d /\ snd (load_model from_pretrained d t) = loaded d t).
Proof.
  unfold load_model, loaded, loadable. destruct t as [ms cs]. simpl.
  case_bool_decide as Hin; simpl.
  { split; [reflexivity|]. split; [reflexivity|]. intros _. now split; [left|]. }
  destruct (model_mapping d) as [name|] eqn:Hm; simpl.
  2:{ split; [reflexivity|]. split; [reflexivity|]. discriminate. }
  destruct (from_pretrained name) as [msg|] eqn:Hp; simpl.
  { split; [reflexivity|]. split; [reflexivity|]. discriminate. }
  split; [reflexivity|]. split.
  - intros x Hx. now apply list_elem_of_further.
  - intros _. split; [right; now exists name | reflexivity].
Qed.

Lemma loadable_mono (t t' : state) (d : pystr) :
  models t ⊆ models t' -> loadable t d -> loadable t' d.
Proof. intros Hs [L|L]; [left; now apply Hs | now right]. Qed.

Lemma translate_chunks_ok (d : pystr) (chunks : list pystr) :
  forall acc t rs,
    translates d (List.filter nonblank chunks) rs ->
    translate_chunks generate acc chunks d t
    = (Ok (acc ++ rs),
       with_calls t (List.map (Generate d) (List.filter nonblank chunks))).
Proof.
  induction chunks as [|chunk rest IH]; intros acc t rs H; simpl in *.
  - inversion H; subst. now rewrite app_nil_r, with_calls_nil.
  - unfold nonblank in *. destruct (truthy (strip chunk)) eqn:E.
    + inversion H as [|? r ? rs' Hg Hrest]; subst.
      unfold translate_chunk. rewrite E. simpl negb. cbv iota.
      unfold bind, record, modify, ret. rewrite Hg. cbv beta iota.
      fold (with_calls t [Generate d chunk]).
      rewrite (IH _ _ _ Hrest), with_calls_app, <- app_assoc. reflexivity.
    + now apply IH.
Qed.

Lemma translate_chunks_spec (d : pystr) (chunks : list pystr) :
  forall acc t,
  exists evs,
    snd (translate_chunks generate acc chunks d t) = with_calls t evs
    /\ evs `prefix_of` List.map (Generate d) (List.filter nonblank chunks)
    /\ forall v, fst (translate_chunks generate acc chunks d t) = Ok v ->
         evs = List.map (Generate d) (List.filter nonblank chunks)
         /\ exists rs, translates d (List.filter nonblank chunks) rs
                       /\ v = acc ++ rs.
Proof.
  induction chunks as [|chunk rest IH]; intros acc t; simpl.
  - exists []. rewrite with_calls_nil. split; [reflexivity|]. split; [reflexivity|].
    intros v [= <-]. split; [reflexivity|]. exists []. split; [constructor|].
    now rewrite app_nil_r.
  - unfold nonblank in *. destruct (truthy (strip chunk)) eqn:E; [|apply IH].
    unfold translate_chunk. rewrite E. simpl negb. cbv iota.
    unfold bind, record, modify, ret, raise. cbv beta iota.
    fold (with_calls t [Generate d chunk]).
    destruct (generate d chunk) as [r|msg] eqn:Hg.
    + destruct (IH (acc ++ [r]) (with_calls t [Generate d chunk]))
        as (evs & Hs & Hp & Hv).
      exists (Generate d chunk :: evs). rewrite Hs, with_calls_app.
      split; [reflexivity|]. split; [now apply prefix_cons|].
      intros v Ev. destruct (Hv v Ev) as (-> & rs & Hrs & ->).
      split; [reflexivity|]. exists (r :: rs). split; [now constructor|].
      now rewrite <- app_assoc.
    + simpl. exists [Generate d chunk].
      split; [reflexivity|]. split; [|discriminate].
      apply prefix_cons, prefix_nil.
Qed.

Lemma translate_text_ok (text : pystr) (direction : option pystr)
                        (t : state) (rs : list pystr) :
  loadable t (resolve direction text) ->
  translates (resolve direction text) (units text) rs ->
  translate_text from_pretrained generate text direction t
  = (Ok (join (py " ") rs),
     with_calls (loaded (resolve direction text)
                        (with_calls t match given direction with
                                      | Some _ => []
                                      | None => [Detect text]
                                      end))
                (List.map (Generate (resolve direction text)) (units text))).
Proof.
  intros L T. unfold translate_text, resolve in *.
  destruct (given direction) as [d|].
  - unfold bind at 1, ret at 1. unfold bind at 1.
    rewrite with_calls_nil, (load_model_ok _ _ L).
    unfold bind. rewrite (translate_chunks_ok _ _ [] _ rs T). reflexivity.
  - set (d := if decide (detect_language text = py "ar") then py "ar2en"
              else py "en2ar") in *.
    unfold bind at 1. unfold bind at 1. unfold record, modify, ret at 1.
    fold (with_calls t [Detect text]).
    unfold bind at 1. rewrite (load_model_ok (with_calls t [Detect text]) d L).
    unfold bind. rewrite (translate_chunks_ok _ _ [] _ rs T). reflexivity.
Qed.

Lemma translate_text_spec (text : pystr) (direction : option pystr) (t : state) :
  exists evs,
    calls (snd (translate_text from_pretrained generate text direction t))
    = calls t ++ evs
    /\ evs `prefix_of` text_calls direction text
    /\ models t
       ⊆ models (snd (translate_text from_pretrained generate text direction t))
    /\ forall v,
         fst (translate_text from_pretrained generate text direction t) = Ok v ->
         evs = text_calls direction text
         /\ loadable t (resolve direction text)
         /\ exists rs, translates (resolve direction text) (units text) rs
                       /\ v = join (py " ") rs.
Proof.
  unfold translate_text, text_calls, resolve.
  set (pre := match given direction with Some _ => [] | None => [Detect text] end).
  set (d := match given direction with
            | Some d => d
            | None => if decide (detect_language text = py "ar")
                      then py "ar2en" else py "en2ar"
            end).
  assert (E : forall B (k : pystr -> M state B),
             bind match given direction with
                  | Some d => ret d
                  | None =>
                      record (Detect text) ;;;
                      ret (if decide (detect_language text = py "ar")
                           then py "ar2en" else py "en2ar")
                  end k t
             = k d (with_calls t pre)).
  { intros B k. subst pre d. destruct (given direction).
    - now rewrite with_calls_nil.
    - reflexivity. }
  rewrite E. clear E.
  destruct (load_model_spec (with_calls t pre) d) as (Hc & Hm & Hok).
  destruct (translate_chunks_spec d (chunk_text text 512) []
              (loaded d (with_calls t pre))) as (evs & Hs & Hp & Hv).
  fold (units text) in Hp, Hv.
  unfold bind, ret.
  destruct (load_model from_pretrained d (with_calls t pre))
    as [[[]|msg|code] t1] eqn:EL; simpl in Hc, Hm, Hok |- *.
  2,3: exists pre; split; [exact Hc|];
       split; [now apply prefix_app_r|];
       split; [exact Hm | discriminate].
  destruct (Hok eq_refl) as (L & ->).
  destruct (translate_chunks generate [] (chunk_text text 512) d
              (loaded d (with_calls t pre)))
    as [[v|msg|code] t2] eqn:ET; simpl in Hs, Hv |- *; subst t2.
  2,3: exists (pre ++ evs); split; [simpl; now rewrite app_assoc|];
       split; [now apply prefix_app|];
       split; [exact Hm | discriminate].
  destruct (Hv v eq_refl) as (-> & rs & Hrs & ->).
  exists (pre ++ List.map (Generate d) (units text)).
  split; [simpl; now rewrite app_assoc|]. split; [reflexivity|].
  split; [exact Hm|]. intros v [= <-].
  split; [reflexivity|]. split; [|now exists rs].
  destruct L as [L|L]; [now left | now right].
Qed.

End TranslatorFacts.

(** ** Line mode *)

Section LineMode.

Variable from_pretrained : pystr -> option pystr.
Variable generate : pystr -> pystr -> reply pystr.

Local Abbreviation translate_text := (translate_text from_pretrained generate).
Local Abbreviation translate_lines := (translate_lines from_pretrained generate).
Local Abbreviation translates := (translates generate).
Local Abbreviation loadable := (loadable from_pretrained).
Local Abbreviation line_result := (line_result generate).
Local Abbreviation answers := (answers from_pretrained generate).

Lemma translate_lines_cons (line : pystr) (rest : list pystr)
                           (direction : option pystr) :
  translate_lines (line :: rest) direction
  = (translated <- (if truthy (strip line)
                    then translate_text line direction
                    else ret []) ;;
     others <- translate_lines rest direction ;;
     ret (translated :: others)).
Proof. reflexivity. Qed.

Lemma translate_lines_spec (direction : option pystr) (lines : list pystr) :
  forall t,
  exists evs,
    calls (snd (translate_lines lines direction t)) = calls t ++ evs
    /\ evs `prefix_of` lines_calls direction lines
    /\ models t ⊆ models (snd (translate_lines lines direction t))
    /\ forall out, fst (translate_lines lines direction t) = Ok out ->
         evs = lines_calls direction lines
         /\ Forall2 (line_result direction) lines out.
Proof.
  induction lines as [|line rest IH]; intros t.
  - exists []. simpl. rewrite app_nil_r.
    split; [reflexivity|]. split; [reflexivity|]. split; [reflexivity|].
    intros out [= <-]. split; [reflexivity | constructor].
  - rewrite translate_lines_cons. unfold lines_calls. simpl flat_map.
    fold (lines_calls direction rest).
    change (truthy (strip line)) with (nonblank line).
    destruct (nonblank line) eqn:E.
    + destruct (translate_text_spec from_pretrained generate line direction t)
        as (e1 & Hc1 & Hp1 & Hm1 & Hv1).
      unfold bind, ret.
      destruct (translate_text line direction t) as [[v|msg|code] t1] eqn:R1;
        simpl in Hc1, Hm1, Hv1.
      2,3: exists e1; simpl; split; [exact Hc1|];
           split; [now apply prefix_app_r|];
           split; [exact Hm1 | discriminate].
      destruct (Hv1 v eq_refl) as (-> & L & rs & Hrs & ->).
      destruct (IH t1) as (e2 & Hc2 & Hp2 & Hm2 & Hv2).
      destruct (translate_lines rest direction t1) as [[out|msg|code] t2] eqn:R2;
        simpl in Hc2, Hm2, Hv2 |- *.
      2,3: exists (text_calls direction line ++ e2);
           split; [now rewrite Hc2, Hc1, app_assoc|];
           split; [now apply prefix_app|];
           split; [now transitivity (models t1) | discriminate].
      destruct (Hv2 out eq_refl) as (-> & F).
      exists (text_calls direction line
              ++ lines_calls direction rest).
      split; [now rewrite Hc2, Hc1, app_assoc|]. split; [reflexivity|].
      split; [now transitivity (models t1)|].
      intros out' [= <-]. split; [reflexivity|].
      constructor; [|exact F]. unfold line_result. rewrite E. now exists rs.
    + destruct (IH t) as (e2 & Hc2 & Hp2 & Hm2 & Hv2).
      unfold bind, ret.
      destruct (translate_lines rest direction t) as [[out|msg|code] t2] eqn:R2;
        simpl in Hc2, Hm2, Hv2 |- *.
      2,3: exists e2; split; [exact Hc2|]; split; [exact Hp2|];
           split; [exact Hm2 | discriminate].
      destruct (Hv2 out eq_refl) as (-> & F).
      exists (lines_calls direction rest).
      split; [exact Hc2|]. split; [reflexivity|]. split; [exact Hm2|].
      intros out' [= <-]. split; [reflexivity|].
      constructor; [|exact F]. unfold line_result. now rewrite E.
Qed.

Lemma answers_tail t t' direction line rest :
  models t ⊆ models t' ->
  answers t direction (line :: rest) -> answers t' direction rest.
Proof.
  intros Hs A l Hl Hn. destruct (A l (or_intror Hl) Hn) as (L & R).
  split; [|exact R]. now apply (loadable_mono _ t t').
Qed.

Lemma translate_lines_returns (direction : option pystr) (lines : list pystr) :
  forall t, answers t direction lines ->
    exists out t', translate_lines lines direction t = (Ok out, t').
Proof.
  induction lines as [|line rest IH]; intros t A.
  - now exists [], t.
  - rewrite translate_lines_cons.
    destruct (truthy (strip line)) eqn:E.
    + destruct (A line (or_introl eq_refl) E) as (L & rs & Hrs).
      pose proof (translate_text_ok _ _ line direction t rs L Hrs) as R1.
      destruct (translate_text_spec from_pretrained generate line direction t)
        as (_ & _ & _ & Hm1 & _).
      rewrite R1 in Hm1. simpl snd in Hm1.
      destruct (IH _ (answers_tail _ _ _ _ _ Hm1 A)) as (out & t' & R2).
      exists (join (py " ") rs :: out), t'.
      unfold bind. rewrite R1, R2. reflexivity.
    + destruct (IH t (answers_tail _ _ _ _ _ (reflexivity _) A))
        as (out & t' & R2).
      exists ([] :: out), t'.
      unfold bind, ret. rewrite R2. reflexivity.
Qed.

End LineMode.

(** ** The stand-in engine answers everything *)

Lemma resolve_auto_supported (text : pystr) : supported (resolve None text).
Proof.
  unfold resolve. simpl.
  destruct (decide (detect_language text = py "ar")); eexists; vm_compute; reflexivity.
Qed.

Lemma stub_translates (d : pystr) (us : list pystr) :
  exists rs, translates stub_generate d us rs.
Proof.
  induction us as [|u us (rs & IH)].
  - exists []. constructor.
  - eexists (_ :: rs). constructor; [reflexivity | exact IH].
Qed.

Lemma stub_answers (t : state) (direction : option pystr) (lines : list pystr) :
  (forall line, In line lines -> supported (resolve direction line)) ->
  answers stub_pretrained stub_generate t direction lines.
Proof.
  intros H line Hin _. split.
  - right. destruct (H line Hin) as (name & Hn). now exists name.
  - apply stub_translates.
Qed.

(** ** C1: where the direction of a line comes from *)

(** C1, as stated, fails: on an English line and an Arabic line without a
    direction, line mode detects twice and translates the two lines in
    opposite directions. *)
Lemma line_mode_detects_per_line :
  calls (snd (translate_lines stub_pretrained stub_generate
                              [hello; marhaba] None fresh))
  = [Detect hello; Generate (py "en2ar") hello;
     Detect marhaba; Generate (py "ar2en") marhaba]
  /\ ~ one_detection_one_direction
         (calls (snd (translate_lines stub_pretrained stub_generate
                                      [hello; marhaba] None fresh))).
Proof.
  split; [vm_compute; reflexivity|].
  intros [H _]. vm_compute in H. discriminate H.
Qed.

(** C1 (amended): when nothing fails, line mode returns, and its calls are,
    line after line and for the non-blank lines only: with an explicit
    direction, the engine calls on the units of the line in that direction;
    without one, a detection on that line alone, then the engine calls on
    its units in the direction detected for that line. *)
Theorem translate_lines_direction_per_line
    (from_pretrained : pystr -> option pystr)
    (generate : pystr -> pystr -> reply pystr)
    (t : state) (direction : option pystr) (lines : list pystr) :
  answers from_pretrained generate t direction lines ->
  exists out t',
    translate_lines from_pretrained generate lines direction t = (Ok out, t')
    /\ calls t'
       = calls t
         ++ flat_map
              (fun line =>
                 if nonblank line
                 then match given direction with
                      | Some d => List.map (Generate d) (units line)
                      | None =>
                          Detect line
                          :: List.map
                               (Generate
                                  (if decide (detect_language line = py "ar")
                                   then py "ar2en" else py "en2ar"))
                               (units line)
                      end
                 else [])
              lines.
Proof.
  intros A.
  destruct (translate_lines_returns _ _ direction lines t A) as (out & t' & R).
  exists out, t'. split; [exact R|].
  destruct (translate_lines_spec from_pretrained generate direction lines t)
    as (evs & Hc & _ & _ & Hv).
  rewrite R in Hc, Hv. simpl in Hc, Hv.
  destruct (Hv out eq_refl) as (-> & _).
  rewrite Hc. f_equal. unfold lines_calls.
  apply flat_map_ext. intros line.
  destruct (nonblank line); [|reflexivity].
  unfold text_calls, resolve. now destruct (given direction).
Qed.

Lemma translate_lines_direction_per_line_witness :
  exists out t',
    translate_lines stub_pretrained stub_generate [hello; marhaba] None fresh
    = (Ok out, t')
    /\ calls t'
       = [Detect hello; Generate (py "en2ar") hello;
          Detect marhaba; Generate (py "ar2en") marhaba].
Proof.
  destruct (translate_lines_direction_per_line
              stub_pretrained stub_generate fresh None [hello; marhaba]
              (stub_answers fresh None [hello; marhaba]
                 (fun line _ => resolve_auto_supported line)))
    as (out & t' & R & C).
  exists out, t'. split; [exact R|]. rewrite C. vm_compute. reflexivity.
Defined.

(** ** C7: what line mode returns *)

(** C7, as stated, fails: the engine is not called on the line but on its
    chunks, which have lost the terminal punctuation. *)
Lemma line_mode_not_engine_on_line :
  translate_lines stub_pretrained stub_generate
                  [py "Hello."] (Some (py "en2ar")) fresh
  = (Ok [py "[en2ar] Hello"],
     {| models := [py "en2ar"];
        calls := [Generate (py "en2ar") (py "Hello")] |})
  /\ ~ engine_on_each_line stub_generate (Some (py "en2ar"))
         [py "Hello."] [py "[en2ar] Hello"].
Proof.
  split; [vm_compute; reflexivity|].
  intros [_ H]. specialize (H 0%nat (py "Hello.") eq_refl).
  vm_compute in H. destruct H as (v & [= <-] & [=]).
Qed.

(** C7 (amended): when nothing fails, line mode returns a list as long as
    the input; at the index of a blank line it holds the empty string, and
    at the index of a non-blank line the engine's answers on the units of
    that line (its chunks, in the line's direction), joined by one space. *)
Theorem translate_lines_aligned
    (from_pretrained : pystr -> option pystr)
    (generate : pystr -> pystr -> reply pystr)
    (t : state) (direction : option pystr) (lines : list pystr) :
  answers from_pretrained generate t direction lines ->
  exists out t',
    translate_lines from_pretrained generate lines direction t = (Ok out, t')
    /\ length out = length lines
    /\ forall i line, lines !! i = Some line ->
         (nonblank line = false -> out !! i = Some [])
         /\ (nonblank line = true ->
             exists rs,
               Forall2 (fun u r => generate (resolve direction line) u = Returns r)
                       (units line) rs
               /\ out !! i = Some (join (py " ") rs)).
Proof.
  intros A.
  destruct (translate_lines_returns _ _ direction lines t A) as (out & t' & R).
  exists out, t'. split; [exact R|].
  destruct (translate_lines_spec from_pretrained generate direction lines t)
    as (evs & _ & _ & _ & Hv).
  rewrite R in Hv. simpl in Hv. destruct (Hv out eq_refl) as (_ & F).
  split; [symmetry; exact (Forall2_length _ _ _ F)|].
  intros i line Hi.
  destruct (Forall2_lookup_l _ _ _ _ _ F Hi) as (v & Hv' & P).
  unfold line_result in P. split; intros E; rewrite E in P.
  - now subst v.
  - destruct P as (rs & Hrs & ->). now exists rs.
Qed.

Lemma translate_lines_aligned_witness :
  exists out t',
    translate_lines stub_pretrained stub_generate
                    [py "Hello"; []; py "World"] (Some (py "en2ar")) fresh
    = (Ok out, t')
    /\ length out = 3%nat
    /\ out !! 1%nat = Some [].
Proof.
  destruct (translate_lines_aligned
              stub_pretrained stub_generate fresh (Some (py "en2ar"))
              [py "Hello"; []; py "World"]
              (stub_answers fresh (Some (py "en2ar"))
                 [py "Hello"; []; py "World"]
                 (fun line _ => ex_intro _ (py "Helsinki-NLP/opus-mt-en-ar")
                                         eq_refl)))
    as (out & t' & R & L & H).
  exists out, t'. split; [exact R|]. split; [exact L|].
  exact (proj1 (H 1%nat [] eq_refl) eq_refl).
Defined.

Example translate_lines_hello_world :
  fst (translate_lines stub_pretrained stub_generate
                       [py "Hello"; []; py "World"] (Some (py "en2ar")) fresh)
  = Ok [py "[en2ar] Hello"; []; py "[en2ar] World"].
Proof. vm_compute. reflexivity. Qed.

(** ** Document mode on particular texts *)





(** C3, as stated, fails: the two sentences fit one chunk of 512, so one
    unit goes to the engine, and the text counts 5 words. *)
Lemma hi_there_not_two_units :
  translate_text stub_pretrained stub_generate hi_there (Some (py "en2ar")) fresh
  = (Ok (py "[en2ar] Hi there. How are you"),
     {| models := [py "en2ar"];
        calls := [Generate (py "en2ar") (py "Hi there. How are you")] |})
  /\ count_words [hi_there] = 5
  /\ ~ two_units_four_words stub_generate (py "en2ar")
         (translate_text stub_pretrained stub_generate hi_there
                         (Some (py "en2ar")) fresh).
Proof.
  split; [vm_compute; reflexivity|]. split; [vm_compute; reflexivity|].
  intros [_ H]. vm_compute in H. discriminate H.
Qed.

(** C3 (amended): with an explicit direction whose model is there or loads,
    document mode sends the one unit ["Hi there. How are you"] to the
    engine and returns the engine's answer to it as it is; the text counts
    5 words by the whitespace-split rule. *)
Theorem hi_there_one_unit
    (from_pretrained : pystr -> option pystr)
    (generate : pystr -> pystr -> reply pystr)
    (d r : pystr) (t : state) :
  truthy d = true ->
  loadable from_pretrained t d ->
  generate d (py "Hi there. How are you") = Returns r ->
  chunk_text hi_there 512 = [py "Hi there. How are you"]
  /\ fst (translate_text from_pretrained generate hi_there (Some d) t) = Ok r
  /\ calls (snd (translate_text from_pretrained generate hi_there (Some d) t))
     = calls t ++ [Generate d (py "Hi there. How are you")]
  /\ count_words [hi_there] = 5.
Proof.
  intros Hd L G.
  assert (Hr : resolve (Some d) hi_there = d).
  { unfold resolve. simpl. now rewrite Hd. }
  assert (Hu : units hi_there = [py "Hi there. How are you"])
    by (vm_compute; reflexivity).
  assert (T : translates generate (resolve (Some d) hi_there)
                         (units hi_there) [r]).
  { rewrite Hr, Hu. repeat constructor. exact G. }
  rewrite <- Hr in L.
  pose proof (translate_text_ok from_pretrained generate hi_there (Some d) t [r] L T) as R.
  split; [vm_compute; reflexivity|].
  rewrite R. simpl given. rewrite Hd, Hu, Hr.
  split; [reflexivity|]. split; [|vm_compute; reflexivity].
  simpl. now rewrite !app_nil_r.
Qed.

Lemma hi_there_one_unit_witness :
  fst (translate_text stub_pretrained stub_generate hi_there
                      (Some (py "ar2en")) fresh)
  = Ok (py "[ar2en] Hi there. How are you")
  /\ count_words [hi_there] = 5.
Proof.
  destruct (hi_there_one_unit stub_pretrained stub_generate
              (py "ar2en") (py "[ar2en] Hi there. How are you") fresh
              eq_refl
              (or_intror (ex_intro _ (py "Helsinki-NLP/opus-mt-ar-en")
                                   (conj eq_refl eq_refl)))
              eq_refl)
    as (_ & R & _ & W).
  split; [exact R | exact W].
Defined.

(** ** The document-job worker *)

Section WorkerFacts.

Variable from_pretrained : pystr -> option pystr.
Variable generate : pystr -> pystr -> reply pystr.
Variable read_pdf : pystr -> reply (list pystr).
Variable open_w : pystr -> option pystr.
Variable f_write : pystr -> pystr -> option (pystr * pystr).
Variable repr : pystr -> pystr.
Variable splitext_root : pystr -> pystr.
Variable path_join : pystr -> pystr -> pystr.

Local Abbreviation task_body :=
  (task_body from_pretrained generate read_pdf open_w f_write repr
             splitext_root path_join).
Local Abbreviation run_translation_task :=
  (run_translation_task from_pretrained generate read_pdf open_w f_write repr
                        splitext_root path_join).
Local Abbreviation extracted := (extracted read_pdf).
Local Abbreviation output_path := (output_path splitext_root path_join).

Lemma quiet_refl (w : world) : quiet w w.
Proof.
  constructor; auto. exists []. now rewrite app_nil_r.
Qed.

Lemma quiet_trans (w1 w2 w3 : world) : quiet w1 w2 -> quiet w2 w3 -> quiet w1 w3.
Proof.
  intros [F1 T1 (e1 & J1 & N1)] [F2 T2 (e2 & J2 & N2)].
  constructor; auto.
  exists (e1 ++ e2). rewrite J2, J1, app_assoc. split; [reflexivity|].
  apply Forall_app. now split.
Qed.

Lemma quietly_ret {A} (a : A) : quietly (ret a).
Proof. intros w. apply quiet_refl. Qed.

Lemma quietly_raise {A} (msg : pystr) : quietly (@raise world A msg).
Proof. intros w. apply quiet_refl. Qed.

Lemma quietly_bind {A B} (m : M world A) (k : A -> M world B) :
  quietly m -> (forall a, quietly (k a)) -> quietly (bind m k).
Proof.
  intros Hm Hk w. specialize (Hm w). unfold bind.
  destruct (m w) as [[a|msg|code] w1]; simpl in *; try exact Hm.
  eapply quiet_trans; [exact Hm | apply Hk].
Qed.

Lemma quietly_try_except {A} (body : M world A) (handler : pystr -> M world A) :
  quietly body -> (forall msg, quietly (handler msg)) ->
  quietly (try_except body handler).
Proof.
  intros Hb Hh w. specialize (Hb w). unfold try_except.
  destruct (body w) as [[a|msg|code] w1]; simpl in *; try exact Hb.
  eapply quiet_trans; [exact Hb | apply Hh].
Qed.

Lemma quietly_lift {A} (m : M state A) : quietly (lift m).
Proof.
  intros w. unfold lift. destruct (m (translator w)) as [r t]. simpl.
  constructor; simpl; auto. exists []. now rewrite app_nil_r.
Qed.

Lemma quietly_set_item (task_id : pystr) (f : task -> task) (e : list effect) :
  Forall not_remove e -> quietly (set_item repr task_id f e).
Proof.
  intros He w. unfold set_item.
  destruct (tasks w !! task_id) as [j|] eqn:E; simpl; [|apply quiet_refl].
  constructor; simpl; auto.
  - intros id Hid. destruct (decide (task_id = id)) as [->|Hne].
    + rewrite lookup_insert_eq. eauto.
    + now rewrite lookup_insert_ne.
  - now exists e.
Qed.

Lemma quietly_set_status (task_id : pystr) (s : job_status) :
  quietly (set_status repr task_id s).
Proof.
  apply quietly_set_item. constructor; [|constructor]. intros p. discriminate.
Qed.

Lemma quietly_extract (path : pystr) : quietly (extract_pdf_lines read_pdf path).
Proof.
  intros w. unfold extract_pdf_lines.
  destruct (files w !! path); [destruct (read_pdf _)|]; apply quiet_refl.
Qed.

Lemma quietly_write (path text : pystr) :
  quietly (write_text open_w f_write path text).
Proof.
  intros w. unfold write_text.
  destruct (open_w path); simpl; [apply quiet_refl|].
  destruct (f_write path text) as [[msg written]|]; simpl.
  all: constructor; simpl; auto.
  all: try (intros p Hp; destruct (decide (path = p)) as [->|Hne];
            [rewrite lookup_insert_eq; eauto | now rewrite lookup_insert_ne]).
  all: exists [WriteFile path]; split; [reflexivity|];
       constructor; [|constructor]; intros p; discriminate.
Qed.

Lemma quietly_task_failed (task_id msg : pystr) :
  quietly (task_failed repr task_id msg).
Proof.
  apply quietly_bind; [apply quietly_set_status|]. intros _.
  apply quietly_set_item. constructor.
Qed.

Lemma quietly_task_body task_id pdf_path original_filename direction :
  quietly (task_body task_id pdf_path original_filename direction).
Proof.
  unfold Main.task_body.
  apply quietly_bind; [apply quietly_set_status|]. intros _.
  apply quietly_bind; [apply quietly_extract|]. intros lines.
  apply quietly_bind.
  { destruct lines; [apply quietly_raise | apply quietly_ret]. }
  intros _. apply quietly_bind; [apply quietly_lift|]. intros out.
  apply quietly_bind; [apply quietly_write|]. intros _.
  apply quietly_bind; [apply quietly_set_status|]. intros _.
  apply quietly_set_item. constructor.
Qed.

(** C5: whatever the worker does (it completes, it fails at any step, the
    persistence included, or it is cut short), the temporary input file
    that exists when it starts is removed exactly once, by the last thing
    the worker does, and is gone after it. *)
Theorem run_translation_task_cleanup
    (task_id pdf_path original_filename : pystr) (direction : option pystr)
    (w : world) :
  is_Some (files w !! pdf_path) ->
  files (snd (run_translation_task task_id pdf_path original_filename
                                   direction w)) !! pdf_path = None
  /\ exists evs,
       journal (snd (run_translation_task task_id pdf_path original_filename
                                          direction w))
       = journal w ++ evs ++ [RemoveFile pdf_path]
       /\ Forall not_remove evs.
Proof.
  intros Hf. unfold Main.run_translation_task, try_finally.
  pose proof (quietly_try_except _ _
                (quietly_task_body task_id pdf_path original_filename direction)
                (quietly_task_failed task_id) w) as Q.
  destruct (try_except _ _ w) as [r w1]. simpl in Q.
  destruct Q as [F _ (evs & J & N)].
  destruct (F _ Hf) as (content & Hc).
  unfold remove_if_exists. rewrite Hc. simpl.
  split; [apply lookup_delete_eq|].
  exists evs. split; [now rewrite J, app_assoc | exact N].
Qed.

Lemma extract_pdf_lines_eq (path : pystr) (w : world) :
  extract_pdf_lines read_pdf path w = (Ok (extracted (files w) path), w).
Proof.
  unfold extract_pdf_lines, extracted.
  destruct (files w !! path); [destruct (read_pdf _)|]; reflexivity.
Qed.

Lemma worker_catches task_id pdf_path original_filename direction w msg w1 :
  is_Some (tasks w !! task_id) ->
  task_body task_id pdf_path original_filename direction w = (Raise msg, w1) ->
  failed_with (run_translation_task task_id pdf_path original_filename
                                    direction w) task_id msg.
Proof.
  intros Hreg Hbody.
  pose proof (quietly_task_body task_id pdf_path original_filename direction w)
    as Q.
  rewrite Hbody in Q. simpl in Q.
  destruct (quiet_tasks _ _ Q _ Hreg) as (j1 & Hj1).
  unfold failed_with, Main.run_translation_task, try_finally, try_except.
  rewrite Hbody.
  unfold task_failed, bind, set_status, set_error, set_item.
  rewrite Hj1. simpl. rewrite lookup_insert_eq. simpl.
  unfold remove_if_exists. simpl.
  destruct (files w1 !! pdf_path); simpl.
  all: split; [reflexivity|]; eexists; rewrite lookup_insert_eq;
       split; [reflexivity|]; split; reflexivity.
Qed.

Lemma task_body_no_lines task_id pdf_path original_filename direction w :
  is_Some (tasks w !! task_id) ->
  extracted (files w) pdf_path = [] ->
  exists w1,
    task_body task_id pdf_path original_filename direction w
    = (Raise (py "Could not extract text from PDF."), w1).
Proof.
  intros (job & Hjob) He. unfold Main.task_body.
  unfold bind at 1. unfold set_status, set_item. rewrite Hjob.
  unfold bind at 1. rewrite extract_pdf_lines_eq. simpl files. rewrite He.
  unfold bind at 1. unfold raise. eauto.
Qed.

Lemma task_body_translation_raises
    task_id pdf_path original_filename direction w msg t1 :
  is_Some (tasks w !! task_id) ->
  extracted (files w) pdf_path <> [] ->
  translate_lines from_pretrained generate (extracted (files w) pdf_path)
                  direction (translator w) = (Raise msg, t1) ->
  exists w1,
    task_body task_id pdf_path original_filename direction w = (Raise msg, w1).
Proof.
  intros (job & Hjob) He Ht. unfold Main.task_body.
  unfold bind at 1. unfold set_status, set_item. rewrite Hjob.
  unfold bind at 1. rewrite extract_pdf_lines_eq. simpl files.
  destruct (extracted (files w) pdf_path) as [|l ls] eqn:El; [congruence|].
  unfold bind at 1. unfold ret at 1.
  unfold bind at 1. unfold lift. simpl translator. rewrite Ht. eauto.
Qed.

Lemma task_body_persistence_raises
    task_id pdf_path original_filename direction w out t1 msg :
  is_Some (tasks w !! task_id) ->
  extracted (files w) pdf_path <> [] ->
  translate_lines from_pretrained generate (extracted (files w) pdf_path)
                  direction (translator w) = (Ok out, t1) ->
  write_raises open_w f_write (output_path original_filename)
               (join [0x0A%N] out) msg ->
  exists w1,
    task_body task_id pdf_path original_filename direction w = (Raise msg, w1).
Proof.
  intros (job & Hjob) He Ht Ho. unfold Main.task_body.
  unfold bind at 1. unfold set_status, set_item. rewrite Hjob.
  unfold bind at 1. rewrite extract_pdf_lines_eq. simpl files.
  destruct (extracted (files w) pdf_path) as [|l ls] eqn:El; [congruence|].
  unfold bind at 1. unfold ret at 1.
  unfold bind at 1. unfold lift. simpl translator. rewrite Ht.
  unfold bind at 1. unfold write_text. fold (output_path original_filename).
  destruct Ho as [Ho|(Ho & written & Hw)]; rewrite Ho; [|rewrite Hw]; eauto.
Qed.

(** X25: the exceptions the worker records.  For a job of the table, the
    worker returns to its caller and leaves the job failed, with this
    error: the fixed message ["Could not extract text from PDF."] when the
    extraction gives no line (the file is missing, the reader raised, or
    the pages hold no text: the extractor itself never raises); the message
    of the exception when the line translation raises one; the message of
    the exception when the persistence raises one, be it the opening of the
    output file or the write into it. *)
Theorem run_translation_task_failure
    (task_id pdf_path original_filename : pystr) (direction : option pystr)
    (w : world) :
  is_Some (tasks w !! task_id) ->
  (extracted (files w) pdf_path = [] ->
   failed_with (run_translation_task task_id pdf_path original_filename
                                     direction w)
               task_id (py "Could not extract text from PDF."))
  /\ (extracted (files w) pdf_path <> [] ->
      forall msg t1,
        translate_lines from_pretrained generate (extracted (files w) pdf_path)
                        direction (translator w) = (Raise msg, t1) ->
        failed_with (run_translation_task task_id pdf_path original_filename
                                          direction w) task_id msg)
  /\ (extracted (files w) pdf_path <> [] ->
      forall out t1 msg,
        translate_lines from_pretrained generate (extracted (files w) pdf_path)
                        direction (translator w) = (Ok out, t1) ->
        write_raises open_w f_write (output_path original_filename)
                     (join [0x0A%N] out) msg ->
        failed_with (run_translation_task task_id pdf_path original_filename
                                          direction w) task_id msg).
Proof.
  intros Hreg. split; [|split].
  - intros He.
    destruct (task_body_no_lines task_id pdf_path original_filename direction
                                 w Hreg He) as (w1 & Hb).
    exact (worker_catches _ _ _ _ _ _ _ Hreg Hb).
  - intros He msg t1 Ht.
    destruct (task_body_translation_raises task_id pdf_path original_filename
                direction w msg t1 Hreg He Ht) as (w1 & Hb).
    exact (worker_catches _ _ _ _ _ _ _ Hreg Hb).
  - intros He out t1 msg Ht Ho.
    destruct (task_body_persistence_raises task_id pdf_path original_filename
                direction w out t1 msg Hreg He Ht Ho) as (w1 & Hb).
    exact (worker_catches _ _ _ _ _ _ _ Hreg Hb).
Qed.

End WorkerFacts.

(** ** The worker on the stand-in world *)

Lemma started_registered : is_Some (tasks started !! job_id).
Proof. unfold started. simpl. rewrite lookup_singleton_eq. eauto. Qed.

Lemma started_has_file : is_Some (files started !! tmp_pdf).
Proof. unfold started. simpl. rewrite lookup_singleton_eq. eauto. Qed.

Lemma run_translation_task_cleanup_witness :
  files (snd (run_translation_task stub_pretrained stub_generate good_pdf
                stub_open stub_write stub_repr stub_splitext stub_join
                job_id tmp_pdf (py "doc") None started)) !! tmp_pdf = None.
Proof.
  exact (proj1 (run_translation_task_cleanup
                  stub_pretrained stub_generate good_pdf stub_open
                  stub_write stub_repr
                  stub_splitext stub_join job_id tmp_pdf (py "doc") None
                  started started_has_file)).
Defined.

Example run_translation_task_completes :
  let r := run_translation_task stub_pretrained stub_generate good_pdf
             stub_open stub_write stub_repr stub_splitext stub_join
             job_id tmp_pdf (py "doc") None started in
  fst r = Ok tt
  /\ (status <$> tasks (snd r) !! job_id) = Some completed
  /\ journal (snd r)
     = [SetStatus job_id processing;
        WriteFile (py "translated_files/doc_translated.txt");
        SetStatus job_id completed; RemoveFile tmp_pdf].
Proof. vm_compute. repeat split; reflexivity. Qed.

Lemma run_translation_task_failure_witness :
  failed_with (run_translation_task stub_pretrained stub_generate broken_pdf
                 stub_open stub_write stub_repr stub_splitext stub_join
                 job_id tmp_pdf (py "doc") None started)
              job_id (py "Could not extract text from PDF.")
  /\ failed_with (run_translation_task stub_pretrained failing_generate
                    good_pdf stub_open stub_write stub_repr
                           stub_splitext stub_join
                    job_id tmp_pdf (py "doc") None started)
                 job_id (py "CUDA out of memory")
  /\ failed_with (run_translation_task stub_pretrained stub_generate
                    good_pdf stub_open full_disk stub_repr stub_splitext
                    stub_join job_id tmp_pdf (py "doc") None started)
                 job_id (py "[Errno 28] No space left on device")
  /\ failed_with (run_translation_task stub_pretrained stub_generate
                    good_pdf missing_dir stub_write stub_repr stub_splitext
                    stub_join job_id tmp_pdf (py "doc") None started)
                 job_id
                 (py "[Errno 2] No such file or directory: "
                  ++ py "'translated_files/doc_translated.txt'").
Proof.
  split; [|split; [|split]].
  - apply (proj1 (run_translation_task_failure
                    stub_pretrained stub_generate broken_pdf stub_open
                    stub_write stub_repr
                    stub_splitext stub_join job_id tmp_pdf (py "doc") None
                    started started_registered)).
    vm_compute. reflexivity.
  - eapply (proj1 (proj2 (run_translation_task_failure
                    stub_pretrained failing_generate good_pdf stub_open
                    stub_write stub_repr
                    stub_splitext stub_join job_id tmp_pdf (py "doc") None
                    started started_registered))).
    + vm_compute. discriminate.
    + vm_compute. reflexivity.
  - eapply (proj2 (proj2 (run_translation_task_failure
                    stub_pretrained stub_generate good_pdf stub_open full_disk
                    stub_repr stub_splitext stub_join job_id tmp_pdf (py "doc")
                    None started started_registered))).
    + vm_compute. discriminate.
    + vm_compute. reflexivity.
    + right. split; [reflexivity|]. eexists. reflexivity.
  - eapply (proj2 (proj2 (run_translation_task_failure
                    stub_pretrained stub_generate good_pdf missing_dir
                    stub_write stub_repr stub_splitext stub_join job_id tmp_pdf
                    (py "doc") None started started_registered))).
    + vm_compute. discriminate.
    + vm_compute. reflexivity.
    + left. vm_compute. reflexivity.
Defined.

(** C6 (the code departs from it): the line translation of a job of the
    table raises when the model does not load, for [load_model] then calls
    [sys.exit(1)]; the [SystemExit] is no [Exception], the worker's
    [except Exception] lets it through, and the worker is left by it: the
    exception reaches the caller, the job is not failed, it has no error,
    and it stays in [processing]; only the input file is removed. *)
Theorem run_translation_task_exit :
  let r := run_translation_task missing_pretrained stub_generate good_pdf
             stub_open stub_write stub_repr stub_splitext stub_join
             job_id tmp_pdf (py "doc") None started in
  fst r = Exit 1
  /\ tasks (snd r) !! job_id
     = Some {| status := processing; result := None; error := None |}
  /\ (forall msg, ~ failed_with r job_id msg)
  /\ files (snd r) !! tmp_pdf = None.
Proof.
  cbv zeta.
  assert (E : fst (run_translation_task missing_pretrained stub_generate
                     good_pdf stub_open stub_write stub_repr stub_splitext
                     stub_join job_id tmp_pdf (py "doc") None started)
              = Exit 1) by (vm_compute; reflexivity).
  split; [exact E|]. split; [vm_compute; reflexivity|].
  split; [|vm_compute; reflexivity].
  intros msg (Hok & _). rewrite E in Hok. discriminate Hok.
Qed.

(** ** The progress stream *)

Section StreamFacts.

Variable from_pretrained : pystr -> option pystr.
Variable generate : pystr -> pystr -> reply pystr.

Local Abbreviation translate_text := (translate_text from_pretrained generate).
Local Abbreviation translate_lines := (translate_lines from_pretrained generate).
Local Abbreviation answers := (answers from_pretrained generate).
Local Abbreviation resume := (Streamlit.resume from_pretrained generate).
Local Abbreviation next := (Streamlit.next from_pretrained generate).
Local Abbreviation consume := (Streamlit.consume from_pretrained generate).

Lemma consume_step (fuel : nat) (g : Streamlit.generator) :
  consume (S fuel) g
  = (step <- next g ;;
     match step with
     | (Streamlit.StopIteration, _) => ret (Some [])
     | (Streamlit.Yield translated current total, g') =>
         seen <- Streamlit.look translated ;;
         later <- consume fuel g' ;;
         ret (option_map (cons (seen, current, total)) later)
     end).
Proof. reflexivity. Qed.

Lemma stream_from (direction : option pystr) (l : nat) (rest : list pystr) :
  forall (pre acc : list pystr) (s : Streamlit.session) (fuel : nat),
    Streamlit.heap s !! l = Some acc ->
    answers (Streamlit.translator s) direction rest ->
    (length rest < fuel)%nat ->
    exists out s',
      translate_lines rest direction (Streamlit.translator s)
      = (Ok out, Streamlit.translator s')
      /\ consume fuel (Streamlit.Suspended (pre ++ rest) direction l (length pre)) s
         = (Ok (Some (views acc (length pre)
                            (Z.of_nat (length (pre ++ rest))) out)), s')
      /\ Streamlit.heap s' = <[l := acc ++ out]> (Streamlit.heap s).
Proof.
  induction rest as [|line rest IH]; intros pre acc s fuel Hl A Hf.
  - destruct fuel as [|fuel]; [simpl in Hf; lia|].
    exists [], s. split; [reflexivity|]. split.
    + rewrite consume_step. unfold bind, Streamlit.next, Streamlit.resume.
      rewrite app_nil_r, (lookup_ge_None_2 pre (length pre)) by lia.
      reflexivity.
    + rewrite app_nil_r. symmetry. now apply list_insert_id.
  - destruct fuel as [|fuel]; [simpl in Hf; lia|].
    assert (Hline : (pre ++ line :: rest) !! length pre = Some line)
      by apply list_lookup_middle, eq_refl.
    (* the translation of this line *)
    assert (Hstep : exists v t1,
               (if truthy (strip line)
                then Streamlit.lift (translate_text line direction)
                else ret []) s
               = (Ok v, {| Streamlit.translator := t1;
                           Streamlit.heap := Streamlit.heap s |})
               /\ (if truthy (strip line)
                   then translate_text line direction
                   else ret []) (Streamlit.translator s) = (Ok v, t1)
               /\ models (Streamlit.translator s) ⊆ models t1).
    { destruct (truthy (strip line)) eqn:E.
      - destruct (A line (or_introl eq_refl) E) as (L & rs & Hrs).
        pose proof (translate_text_ok _ _ line direction _ rs L Hrs) as R1.
        destruct (translate_text_spec from_pretrained generate line direction
                    (Streamlit.translator s)) as (_ & _ & _ & Hm & _).
        rewrite R1 in Hm. simpl snd in Hm.
        eexists _, _. unfold Streamlit.lift. rewrite R1.
        split; [reflexivity|]. split; [reflexivity | exact Hm].
      - exists [], (Streamlit.translator s). unfold ret.
        split; [now destruct s|]. split; reflexivity. }
    destruct Hstep as (v & t1 & Hs1 & Ht1 & Hm).
    set (s2 := {| Streamlit.translator := t1;
                  Streamlit.heap := <[l := acc ++ [v]]> (Streamlit.heap s) |}).
    assert (Hl2 : Streamlit.heap s2 !! l = Some (acc ++ [v])).
    { simpl. apply list_lookup_insert_eq. now apply lookup_lt_Some in Hl. }
    assert (A2 : answers (Streamlit.translator s2) direction rest)
      by exact (answers_tail _ _ _ _ _ _ _ Hm A).
    assert (Hf2 : (length rest < fuel)%nat) by (simpl in Hf; lia).
    destruct (IH (pre ++ [line]) (acc ++ [v]) s2 fuel Hl2 A2 Hf2)
      as (out & s' & Ht & Hc & Hh).
    rewrite <- app_assoc in Hc. simpl app in Hc.
    rewrite length_app in Hc. simpl length in Hc.
    exists (v :: out), s'. split; [|split].
    + rewrite translate_lines_cons. unfold bind. rewrite Ht1.
      simpl in Ht. rewrite Ht. reflexivity.
    + rewrite consume_step. unfold bind at 1.
      unfold Streamlit.next, Streamlit.resume. rewrite Hline.
      unfold bind at 1. rewrite Hs1.
      unfold bind at 1. unfold Streamlit.append. simpl Streamlit.heap.
      rewrite Hl. simpl Streamlit.translator. fold s2.
      unfold ret at 1. unfold bind at 1. unfold Streamlit.look. rewrite Hl2.
      simpl default. unfold bind at 1. rewrite Hc. unfold ret. simpl option_map.
      do 3 f_equal. unfold views. rewrite imap_cons. f_equal.
      * replace (Z.of_nat (length pre + 1)) with (Z.of_nat (length pre) + 1)
          by lia.
        reflexivity.
      * apply imap_ext. intros k x _. simpl.
        rewrite <- app_assoc. simpl.
        replace (length pre + 1 + S k)%nat with (length pre + S (S k))%nat
          by lia.
        reflexivity.
    + rewrite Hh. simpl. rewrite list_insert_insert_eq.
      now rewrite <- app_assoc.
Qed.

(** C9: when nothing fails on the lines, the stream over [n] lines, pulled
    to its end, gives exactly [n] steps; at step [k] (from 1) the counters
    are [k] and [n] and the list read at that moment holds the line-mode
    translations of the lines [0..k-1], the first [k] of [out], so one more
    than at the step before. Every pass, from whatever session, makes all
    the calls of a line-mode pass again and fills a new list. *)
Theorem stream_steps
    (s : Streamlit.session) (direction : option pystr) (lines : list pystr)
    (fuel : nat) :
  answers (Streamlit.translator s) direction lines ->
  (length lines < fuel)%nat ->
  exists out steps s',
    consume fuel (Streamlit.translate_lines_streaming lines direction) s
    = (Ok (Some steps), s')
    /\ length steps = length lines
    /\ (forall k, (k < length lines)%nat ->
          steps !! k = Some (take (S k) out, Z.of_nat (S k),
                             Z.of_nat (length lines)))
    /\ translate_lines lines direction (Streamlit.translator s)
       = (Ok out, Streamlit.translator s')
    /\ calls (Streamlit.translator s')
       = calls (Streamlit.translator s) ++ lines_calls direction lines
    /\ Streamlit.heap s' = Streamlit.heap s ++ [out].
Proof.
  intros A Hf.
  destruct fuel as [|fuel]; [lia|].
  set (l := length (Streamlit.heap s)).
  set (s0 := {| Streamlit.translator := Streamlit.translator s;
                Streamlit.heap := Streamlit.heap s ++ [[]] |}).
  assert (Hl : Streamlit.heap s0 !! l = Some []).
  { simpl. apply list_lookup_middle. reflexivity. }
  destruct (stream_from direction l lines [] [] s0 (S fuel) Hl A Hf)
    as (out & s' & Ht & Hc & Hh).
  simpl in Ht, Hh.
  destruct (translate_lines_spec from_pretrained generate direction lines
              (Streamlit.translator s)) as (evs & Hcalls & _ & _ & Hv).
  rewrite Ht in Hcalls, Hv. simpl in Hcalls, Hv.
  destruct (Hv out eq_refl) as (-> & F).
  pose proof (Forall2_length _ _ _ F) as Hlen.
  exists out, (views [] 0 (Z.of_nat (length lines)) out), s'.
  split; [|split; [|split; [|split; [|split]]]].
  - exact Hc.
  - unfold views. now rewrite length_imap.
  - intros k Hk. unfold views. rewrite list_lookup_imap.
    destruct (lookup_lt_is_Some_2 out k) as (x & Hx); [lia|].
    rewrite Hx. reflexivity.
  - exact Ht.
  - exact Hcalls.
  - rewrite Hh. subst l.
    rewrite insert_app_r_alt by lia. now rewrite Nat.sub_diag.
Qed.

End StreamFacts.

Lemma stream_steps_witness :
  exists out steps s',
    Streamlit.consume stub_pretrained stub_generate 4
      (Streamlit.translate_lines_streaming [py "Hello"; []; py "World"]
                                           (Some (py "en2ar")))
      new_session
    = (Ok (Some steps), s')
    /\ length steps = 3%nat
    /\ steps !! 1%nat = Some (take 2 out, 2, 3).
Proof.
  destruct (stream_steps stub_pretrained stub_generate new_session
              (Some (py "en2ar")) [py "Hello"; []; py "World"] 4
              (stub_answers fresh (Some (py "en2ar"))
                 [py "Hello"; []; py "World"]
                 (fun line _ => ex_intro _ (py "Helsinki-NLP/opus-mt-en-ar")
                                         eq_refl))
              ltac:(simpl; lia))
    as (out & steps & s' & C & L & K & _).
  exists out, steps, s'. split; [exact C|]. split; [exact L|].
  apply (K 1%nat). simpl. lia.
Defined.

(** A second pass over the same lines in the session the first one left:
    the same three steps, the engine called again on every line, and a
    second list beside the first. *)
Example stream_second_pass :
  let g := Streamlit.translate_lines_streaming [py "Hello"; []; py "World"]
                                               (Some (py "en2ar")) in
  let s1 := snd (Streamlit.consume stub_pretrained stub_generate 4 g
                                   new_session) in
  let r2 := Streamlit.consume stub_pretrained stub_generate 4 g s1 in
  fst r2
  = Ok (Some [([py "[en2ar] Hello"], 1, 3);
              ([py "[en2ar] Hello"; []], 2, 3);
              ([py "[en2ar] Hello"; []; py "[en2ar] World"], 3, 3)])
  /\ calls (Streamlit.translator (snd r2))
     = [Generate (py "en2ar") (py "Hello"); Generate (py "en2ar") (py "World");
        Generate (py "en2ar") (py "Hello"); Generate (py "en2ar") (py "World")]
  /\ length (Streamlit.heap (snd r2)) = 2%nat.
Proof. vm_compute. repeat split; reflexivity. Qed.

(** * Further properties of the code *)

(** ** The translator: how a call can fail *)

Section TranslatorFailures.

Variable from_pretrained : pystr -> option pystr.
Variable generate : pystr -> pystr -> reply pystr.

Local Abbreviation translate_text := (translate_text from_pretrained generate).
Local Abbreviation translates := (translates generate).
Local Abbreviation loadable := (loadable from_pretrained).

(** [translate_text] is [load_model] and the chunk loop, run in the
    direction it resolved, after the detection when there is one. *)
Lemma translate_text_unfold (text : pystr) (direction : option pystr) (t : state) :
  translate_text text direction t
  = (load_model from_pretrained (resolve direction text) ;;;
     translations <- translate_chunks generate [] (chunk_text text 512)
                                      (resolve direction text) ;;
     ret (join (py " ") translations))
      (with_calls t match given direction with
                    | Some _ => []
                    | None => [Detect text]
                    end).
Proof.
  unfold Translator.translate_text, resolve.
  destruct (given direction).
  - now rewrite with_calls_nil.
  - reflexivity.
Qed.

Lemma load_model_outcome (t : state) (d : pystr) :
  match fst (load_model from_pretrained d t) with
  | Ok _ => True
  | Raise msg =>
      (d ∉ models t) /\ model_mapping d = None
      /\ msg = py "Unsupported translation direction: " ++ d
  | Exit code =>
      code = 1 /\ (d ∉ models t)
      /\ exists name, model_mapping d = Some name
                      /\ is_Some (from_pretrained name)
  end.
Proof.
  unfold load_model. case_bool_decide as Hin; simpl; [exact I|].
  destruct (model_mapping d) as [name|] eqn:Hm; simpl; [|now repeat split].
  destruct (from_pretrained name) as [msg|] eqn:Hp; simpl; [|exact I].
  split; [reflexivity|]. split; [exact Hin|]. exists name. rewrite Hp. eauto.
Qed.

Lemma translate_chunks_outcome (d : pystr) (chunks : list pystr) :
  forall acc t,
    match fst (translate_chunks generate acc chunks d t) with
    | Ok _ => True
    | Raise msg =>
        exists u, In u (List.filter nonblank chunks) /\ generate d u = Throws msg
    | Exit _ => False
    end.
Proof.
  induction chunks as [|chunk rest IH]; intros acc t; simpl; [exact I|].
  unfold nonblank in *. destruct (truthy (strip chunk)) eqn:E; [|apply IH].
  unfold translate_chunk. rewrite E. simpl negb. cbv iota.
  unfold bind, record, modify, ret, raise. cbv beta iota.
  destruct (generate d chunk) as [r|msg] eqn:Hg.
  - specialize (IH (acc ++ [r])
                   {| models := models t;
                      calls := calls t ++ [Generate d chunk] |}).
    destruct (fst (translate_chunks generate (acc ++ [r]) rest d _))
      as [v|msg|code] eqn:R.
    + destruct (translate_chunks generate (acc ++ [r]) rest d _) as [o s].
      simpl in R. now subst o.
    + destruct (translate_chunks generate (acc ++ [r]) rest d _) as [o s].
      simpl in R. subst o. simpl.
      destruct IH as (u & Hu & Hg'). exists u. split; [now right | exact Hg'].
    + contradiction.
  - simpl. exists chunk. split; [now left | exact Hg].
Qed.

Lemma translate_chunks_fails (d msg : pystr) (chunks : list pystr) :
  forall acc t before u after rs,
    List.filter nonblank chunks = before ++ u :: after ->
    translates d before rs ->
    generate d u = Throws msg ->
    translate_chunks generate acc chunks d t
    = (Raise msg, with_calls t (List.map (Generate d) (before ++ [u]))).
Proof.
  induction chunks as [|chunk rest IH]; intros acc t before u after rs F T G.
  - simpl in F. now destruct before.
  - simpl in F |- *. unfold nonblank in *.
    destruct (truthy (strip chunk)) eqn:E; [|now apply (IH _ _ _ _ after rs)].
    unfold translate_chunk. rewrite E. simpl negb. cbv iota.
    unfold bind, record, modify, ret, raise. cbv beta iota.
    fold (with_calls t [Generate d chunk]).
    destruct before as [|b before].
    + simpl in F. injection F as -> F. rewrite G. reflexivity.
    + simpl in F. injection F as -> F.
      inversion T as [|? r ? rs' Hb T']; subst. rewrite Hb.
      rewrite (IH (acc ++ [r]) _ before u after rs' F T' G).
      now rewrite with_calls_app.
Qed.

(** X1: an explicit direction that is neither cached nor one of the two of
    [model_mapping] makes [translate_text] raise the [ValueError] of
    [load_model], with the direction in its message, before any detection
    or engine call: the translator is left as it was. *)
Theorem translate_text_unsupported
    (text d : pystr) (t : state) :
  truthy d = true -> d ∉ models t -> model_mapping d = None ->
  translate_text text (Some d) t
  = (Raise (py "Unsupported translation direction: " ++ d), t).
Proof.
  intros Hd Hin Hm. rewrite translate_text_unfold.
  unfold resolve. simpl given. rewrite Hd, with_calls_nil.
  unfold bind, load_model. rewrite bool_decide_eq_false_2 by exact Hin.
  now rewrite Hm.
Qed.

(** X2: what [translate_text] raises is either the [ValueError] of an
    explicit unsupported direction or what the engine raised on one of the
    units of the text; it never raises for the direction when it detects it;
    and it leaves through [sys.exit] only with code 1, when the model of a
    supported direction does not load. *)
Theorem translate_text_failure_causes
    (text : pystr) (direction : option pystr) (t : state) :
  (forall msg, fst (translate_text text direction t) = Raise msg ->
     (exists d, given direction = Some d /\ model_mapping d = None
                /\ msg = py "Unsupported translation direction: " ++ d)
     \/ (exists u, In u (units text)
                   /\ generate (resolve direction text) u = Throws msg))
  /\ (forall code, fst (translate_text text direction t) = Exit code ->
        code = 1
        /\ exists name, model_mapping (resolve direction text) = Some name
                        /\ is_Some (from_pretrained name)).
Proof.
  rewrite translate_text_unfold.
  set (t0 := with_calls t _).
  pose proof (load_model_outcome t0 (resolve direction text)) as HL.
  unfold bind, ret.
  destruct (load_model from_pretrained (resolve direction text) t0)
    as [[[]|m|c] t1]; simpl in HL.
  - pose proof (translate_chunks_outcome (resolve direction text)
                  (chunk_text text 512) [] t1) as HC.
    destruct (translate_chunks generate [] (chunk_text text 512)
                (resolve direction text) t1) as [[v|m|c] t2]; simpl in HC |- *.
    + split; intros ? [=].
    + split; [|intros ? [=]]. intros msg [= <-]. right. exact HC.
    + contradiction.
  - destruct HL as (_ & Hm & ->). split; [|intros ? [=]].
    intros msg [= <-]. left.
    unfold resolve in *. destruct (given direction) as [d|] eqn:G.
    + now exists d.
    + destruct (decide (detect_language text = py "ar"));
        vm_compute in Hm; discriminate Hm.
  - destruct HL as (-> & _ & name & Hm & Hp). split; [intros ? [=]|].
    intros code [= <-]. split; [reflexivity|]. now exists name.
Qed.

(** X3: when the engine raises on a unit, the units before it having been
    answered, [translate_text] raises the same message: the engine has been
    called on the units up to that one and on none after it, and no partial
    translation is returned. *)
Theorem translate_text_stops_at_failure
    (text : pystr) (direction : option pystr) (t : state)
    (before after rs : list pystr) (u msg : pystr) :
  loadable t (resolve direction text) ->
  units text = before ++ u :: after ->
  translates (resolve direction text) before rs ->
  generate (resolve direction text) u = Throws msg ->
  fst (translate_text text direction t) = Raise msg
  /\ calls (snd (translate_text text direction t))
     = calls t
       ++ match given direction with Some _ => [] | None => [Detect text] end
       ++ List.map (Generate (resolve direction text)) (before ++ [u]).
Proof.
  intros L U T G. rewrite translate_text_unfold.
  set (pre := match given direction with Some _ => [] | None => [Detect text] end).
  assert (L' : loadable (with_calls t pre) (resolve direction text)).
  { destruct L as [L|L]; [now left | now right]. }
  unfold bind. rewrite (load_model_ok _ _ _ L').
  rewrite (translate_chunks_fails _ msg _ [] _ before u after rs U T G).
  simpl. split; [reflexivity|]. now rewrite <- app_assoc.
Qed.

(** X4: once [load_model] has returned for a direction, it returns for it
    again without any change to the translator, whatever would happen to a
    new attempt to load; a load never removes a model. *)
Theorem load_model_cached
    (from_pretrained' : pystr -> option pystr) (d : pystr) (t t' : state) :
  load_model from_pretrained d t = (Ok tt, t') ->
  d ∈ models t' /\ models t ⊆ models t'
  /\ load_model from_pretrained' d t' = (Ok tt, t').
Proof.
  intros R. destruct (load_model_spec from_pretrained t d) as (_ & Hsub & Hok).
  rewrite R in Hsub, Hok. simpl in Hsub, Hok.
  destruct (Hok eq_refl) as (_ & ->).
  assert (Hin : d ∈ models (loaded d t)).
  { unfold loaded. simpl. case_bool_decide; [assumption | apply list_elem_of_here]. }
  split; [exact Hin|]. split; [exact Hsub|].
  unfold load_model. now rewrite bool_decide_eq_true_2 by exact Hin.
Qed.

End TranslatorFailures.

Lemma translate_text_unsupported_witness :
  translate_text stub_pretrained stub_generate hello (Some (py "fr2en")) fresh
  = (Raise (py "Unsupported translation direction: fr2en"), fresh).
Proof.
  apply (translate_text_unsupported stub_pretrained stub_generate
           hello (py "fr2en") fresh).
  - reflexivity.
  - apply not_elem_of_nil.
  - vm_compute. reflexivity.
Defined.

Lemma translate_text_failure_causes_witness :
  fst (translate_text stub_pretrained failing_generate hello None fresh)
  = Raise (py "CUDA out of memory")
  /\ exists u, In u (units hello)
               /\ failing_generate (resolve None hello) u
                  = Throws (py "CUDA out of memory").
Proof.
  assert (R : fst (translate_text stub_pretrained failing_generate hello None
                                  fresh) = Raise (py "CUDA out of memory"))
    by (vm_compute; reflexivity).
  split; [exact R|].
  destruct (proj1 (translate_text_failure_causes stub_pretrained
                     failing_generate hello None fresh) _ R)
    as [(d & G & _)|H].
  - discriminate G.
  - exact H.
Defined.

Lemma translate_text_stops_at_failure_witness :
  fst (translate_text stub_pretrained picky_generate long_text
                      (Some (py "en2ar")) fresh)
  = Raise (py "CUDA out of memory")
  /\ calls (snd (translate_text stub_pretrained picky_generate long_text
                                (Some (py "en2ar")) fresh))
     = [Generate (py "en2ar") (repeat 0x61%N 300);
        Generate (py "en2ar") (repeat 0x62%N 300)].
Proof.
  apply (translate_text_stops_at_failure stub_pretrained picky_generate
           long_text (Some (py "en2ar")) fresh
           [repeat 0x61%N 300] [] [repeat 0x61%N 300]
           (repeat 0x62%N 300) (py "CUDA out of memory")).
  - right. exists (py "Helsinki-NLP/opus-mt-en-ar"). split; reflexivity.
  - vm_compute. reflexivity.
  - repeat constructor.
  - reflexivity.
Defined.

Lemma load_model_cached_witness :
  load_model missing_pretrained (py "en2ar")
             (snd (load_model stub_pretrained (py "en2ar") fresh))
  = (Ok tt, snd (load_model stub_pretrained (py "en2ar") fresh)).
Proof.
  exact (proj2 (proj2 (load_model_cached stub_pretrained missing_pretrained
                         (py "en2ar") fresh
                         (snd (load_model stub_pretrained (py "en2ar") fresh))
                         eq_refl))).
Defined.

(** ** The chunker: what the chunks hold *)

Lemma sentences_usable (text : pystr) : Forall usable (sentences text).
Proof.
  unfold sentences. induction (re_split text) as [|p ps IH]; simpl; [constructor|].
  destruct (truthy (strip p)) eqn:E; [|exact IH].
  constructor; [now apply usable_strip | exact IH].
Qed.

Lemma chunk_step_piece (max_length : Z) (st : chunker) (piece : pystr) :
  chunk_step max_length st piece
  = if truthy (strip piece) then chunk_step max_length st (strip piece) else st.
Proof.
  destruct (truthy (strip piece)) eqn:E.
  - unfold chunk_step.
    now rewrite (usable_strip_id _ (usable_strip _ E)).
  - unfold chunk_step. now rewrite E.
Qed.

(** The loop reads the kept sentences only. *)
Lemma chunk_loop_sentences (max_length : Z) (text : pystr) :
  chunk_loop max_length (re_split text)
  = fold_left (chunk_step max_length) (sentences text)
              {| chunks := []; current_chunk := [] |}.
Proof.
  unfold chunk_loop, sentences.
  generalize {| chunks := []; current_chunk := [] |}.
  induction (re_split text) as [|p ps IH]; intros st; simpl; [reflexivity|].
  rewrite chunk_step_piece.
  destruct (truthy (strip p)) eqn:E; simpl; [|apply IH].
  now rewrite IH.
Qed.

Lemma join_app (sep : pystr) (a b : list pystr) :
  a <> [] -> b <> [] ->
  join sep (a ++ b) = join sep a ++ sep ++ join sep b.
Proof.
  intros Ha Hb. induction a as [|x a IH]; [congruence|].
  destruct a as [|y a].
  - destruct b as [|z b]; [congruence | reflexivity].
  - change ((x :: y :: a) ++ b) with (x :: y :: (a ++ b)).
    rewrite !join_cons2.
    change (y :: a ++ b) with ((y :: a) ++ b).
    rewrite IH by discriminate. now rewrite <- !app_assoc.
Qed.

Lemma join_concat (sep : pystr) (runs : list (list pystr)) :
  Forall (fun r => r <> []) runs ->
  join sep (List.map (join sep) runs) = join sep (concat runs).
Proof.
  induction 1 as [|r runs Hr Hrs IH]; [reflexivity|].
  destruct runs as [|r' runs].
  - simpl. now rewrite app_nil_r.
  - change (List.map (join sep) (r :: r' :: runs))
      with (join sep r :: join sep r' :: List.map (join sep) runs).
    rewrite join_cons2.
    change (join sep r' :: List.map (join sep) runs)
      with (List.map (join sep) (r' :: runs)).
    rewrite IH. simpl concat. symmetry. apply join_app; [exact Hr|].
    inversion Hrs as [|? ? Hr' _]; subst.
    destruct r'; [congruence | discriminate].
Qed.

(** X5: re-joining the chunks with ['. '] gives the kept sentences joined
    with ['. '], whatever the limit: the chunks hold every sentence once, in
    order, and nothing else; without a sentence the one chunk is the text. *)
Theorem chunk_text_rejoin (text : pystr) (max_length : Z) :
  join (py ". ") (chunk_text text max_length)
  = match sentences text with
    | [] => text
    | _ :: _ => join (py ". ") (sentences text)
    end.
Proof.
  destruct (chunk_text_cases text max_length)
    as [[E R]|[Hne (runs & R & C & F)]].
  - now rewrite R, E.
  - rewrite R, join_concat, C.
    + now destruct (sentences text).
    + eapply Forall_impl; [exact F|]. now intros r [Hr _].
Qed.

Lemma filter_usable (l : list pystr) :
  Forall usable l -> List.filter nonblank l = l.
Proof.
  induction 1 as [|c cs Hc _ IH]; [reflexivity|]. simpl.
  unfold nonblank at 1. rewrite (usable_strip_id c Hc).
  destruct Hc as [Hc _]. apply truthy_true in Hc. rewrite Hc. now rewrite IH.
Qed.

(** X6: when the text has a sentence, every chunk is non-empty and has no
    whitespace at either end, so the guard [if chunk.strip()] of
    [translate_text] skips none: each chunk is a unit sent to the engine. *)
Theorem chunk_text_all_units (text : pystr) (max_length : Z) :
  sentences text <> [] ->
  Forall usable (chunk_text text max_length)
  /\ List.filter nonblank (chunk_text text max_length)
     = chunk_text text max_length.
Proof.
  intros Hne.
  destruct (chunk_text_cases text max_length)
    as [[E _]|[_ (runs & R & C & F)]]; [congruence|].
  assert (U : Forall usable (chunk_text text max_length)).
  { rewrite R. apply Forall_forall. intros c Hc.
    apply list_elem_of_In, in_map_iff in Hc. destruct Hc as (r & <- & Hr).
    apply list_elem_of_In in Hr.
    pose proof (proj1 (Forall_forall _ _) F r Hr) as [Hrne _].
    apply join_usable; [exact Hrne|].
    apply Forall_forall. intros s Hs.
    apply (proj1 (Forall_forall _ _) (sentences_usable text)).
    rewrite <- C. apply list_elem_of_In, in_concat. exists r.
    split; apply list_elem_of_In; assumption. }
  split; [exact U | now apply filter_usable].
Qed.

Lemma chunk_text_all_units_witness :
  Forall usable (chunk_text (py "  Hi!  Yo?? ") 4)
  /\ List.filter nonblank (chunk_text (py "  Hi!  Yo?? ") 4)
     = chunk_text (py "  Hi!  Yo?? ") 4.
Proof.
  apply (chunk_text_all_units (py "  Hi!  Yo?? ") 4).
  vm_compute. discriminate.
Defined.

Lemma small_limit_fold (max_length : Z) (ss : list pystr) :
  max_length <= 1 -> Forall usable ss ->
  forall cs cur, usable cur ->
    chunks (fold_left (chunk_step max_length) ss
                      {| chunks := cs; current_chunk := cur |})
    ++ [current_chunk (fold_left (chunk_step max_length) ss
                                 {| chunks := cs; current_chunk := cur |})]
    = cs ++ cur :: ss
    /\ usable (current_chunk (fold_left (chunk_step max_length) ss
                                        {| chunks := cs; current_chunk := cur |})).
Proof.
  intros Hm. induction 1 as [|s ss Hs _ IH]; intros cs cur Hcur.
  - now split.
  - assert (Step : chunk_step max_length
                     {| chunks := cs; current_chunk := cur |} s
                   = {| chunks := cs ++ [cur]; current_chunk := s |}).
    { unfold chunk_step. simpl.
      rewrite (usable_strip_id s Hs), (usable_strip_id cur Hcur).
      assert (Ts : truthy s = true) by (apply truthy_true; apply Hs).
      assert (Tc : truthy cur = true) by (apply truthy_true; apply Hcur).
      rewrite Ts, Tc. simpl negb. cbv iota.
      assert (L : (len cur + len s >? max_length) = true).
      { apply Z.gtb_lt. unfold len.
        destruct cur; [discriminate|]. destruct s; [discriminate|]. simpl. lia. }
      now rewrite L. }
    simpl fold_left. rewrite Step.
    destruct (IH (cs ++ [cur]) s Hs) as [E U].
    split; [|exact U]. rewrite E. now rewrite <- app_assoc.
Qed.

(** X7: with a limit of 1 or less every kept sentence is a chunk of its
    own: the chunks are exactly the kept sentences. *)
Theorem chunk_text_small_limit (text : pystr) (max_length : Z) :
  max_length <= 1 ->
  chunk_text text max_length
  = match sentences text with
    | [] => [text]
    | _ :: _ => sentences text
    end.
Proof.
  intros Hm. unfold chunk_text. rewrite chunk_loop_sentences.
  pose proof (sentences_usable text) as U.
  destruct (sentences text) as [|s ss]; [reflexivity|].
  inversion U as [|? ? Hs Hss]; subst.
  assert (Step : chunk_step max_length {| chunks := []; current_chunk := [] |} s
                 = {| chunks := []; current_chunk := s |}).
  { unfold chunk_step. simpl. rewrite (usable_strip_id s Hs).
    assert (Ts : truthy s = true) by (apply truthy_true; apply Hs).
    rewrite Ts. simpl negb. cbv iota. now rewrite andb_false_r. }
  simpl fold_left. rewrite Step.
  destruct (small_limit_fold max_length ss Hm Hss [] s Hs) as [E Uc].
  simpl app in E.
  set (st := fold_left _ ss _) in *.
  assert (Tc : truthy (current_chunk st) = true)
    by (apply truthy_true; apply Uc).
  rewrite Tc, (usable_strip_id _ Uc), E. reflexivity.
Qed.

Lemma chunk_text_small_limit_witness :
  chunk_text (py "One. Two! Three?") 0 = [py "One"; py "Two"; py "Three"].
Proof.
  rewrite (chunk_text_small_limit (py "One. Two! Three?") 0) by lia.
  vm_compute. reflexivity.
Defined.

Lemma len_join_app_le (sep : pystr) (a b : list pystr) :
  len (join sep a) <= len (join sep (a ++ b)).
Proof.
  destruct a as [|x a]; [apply len_nonneg|].
  destruct b as [|y b]; [rewrite app_nil_r; lia|].
  rewrite join_app by discriminate. rewrite !len_app.
  pose proof (len_nonneg sep). pose proof (len_nonneg (join sep (y :: b))). lia.
Qed.

Lemma single_chunk_fold (max_length : Z) (ss : list pystr) :
  Forall usable ss ->
  forall pre, Forall usable pre ->
    len (join (py ". ") (pre ++ ss)) <= max_length ->
    fold_left (chunk_step max_length) ss
              {| chunks := []; current_chunk := join (py ". ") pre |}
    = {| chunks := []; current_chunk := join (py ". ") (pre ++ ss) |}.
Proof.
  induction 1 as [|s ss Hs _ IH]; intros pre Hpre Hlen; simpl.
  - now rewrite app_nil_r.
  - assert (Ts : truthy s = true) by (apply truthy_true; apply Hs).
    assert (Step : chunk_step max_length
                     {| chunks := []; current_chunk := join (py ". ") pre |} s
                   = {| chunks := [];
                        current_chunk := join (py ". ") (pre ++ [s]) |}).
    { unfold chunk_step. cbn [current_chunk chunks].
      rewrite (usable_strip_id s Hs), Ts.
      simpl negb. cbv iota.
      destruct pre as [|p pre].
      { cbn [join truthy app]. now rewrite andb_false_r. }
      assert (Tp : truthy (join (py ". ") (p :: pre)) = true)
        by (apply (join_truthy (py ". ") _ Hpre); discriminate).
      rewrite Tp.
      assert (L : (len (join (py ". ") (p :: pre)) + len s >? max_length)
                  = false).
      { rewrite Z.gtb_ltb. apply Z.ltb_ge.
        pose proof (len_join_app_le (py ". ") ((p :: pre) ++ [s]) ss) as M.
        rewrite <- app_assoc in M.
        change ([s] ++ ss) with (s :: ss) in M.
        rewrite join_snoc in M by discriminate.
        rewrite !len_app in M.
        pose proof (len_nonneg (py ". ")). lia. }
      rewrite L. simpl andb. cbv iota.
      now rewrite join_snoc by discriminate. }
    rewrite Step.
    rewrite IH.
    + now rewrite <- app_assoc.
    + apply Forall_app. split; [exact Hpre | now constructor].
    + now rewrite <- app_assoc.
Qed.

(** X8: when the kept sentences joined with ['. '] fit the limit, the
    result is that one chunk. *)
Theorem chunk_text_single_chunk (text : pystr) (max_length : Z) :
  sentences text <> [] ->
  len (join (py ". ") (sentences text)) <= max_length ->
  chunk_text text max_length = [join (py ". ") (sentences text)].
Proof.
  intros Hne Hlen. unfold chunk_text. rewrite chunk_loop_sentences.
  pose proof (sentences_usable text) as U.
  pose proof (single_chunk_fold max_length (sentences text) U []
                (List.Forall_nil _) Hlen) as F.
  change (join (py ". ") []) with (@nil N) in F.
  change ([] ++ sentences text) with (sentences text) in F.
  rewrite F. cbn [current_chunk chunks app].
  pose proof (join_usable (py ". ") _ Hne U) as Uj.
  assert (Tj : truthy (join (py ". ") (sentences text)) = true)
    by (apply truthy_true; apply Uj).
  now rewrite Tj, (usable_strip_id _ Uj).
Qed.

Lemma chunk_text_single_chunk_witness :
  chunk_text (py "One. Two! Three?") 15 = [py "One. Two. Three"].
Proof.
  rewrite (chunk_text_single_chunk (py "One. Two! Three?") 15).
  - vm_compute. reflexivity.
  - vm_compute. discriminate.
  - vm_compute. discriminate.
Defined.

(** ** The detector and the word count *)

Lemma arabic_chars_nonspace (text : pystr) :
  arabic_chars (List.filter (fun c => negb (isspace c)) text) = arabic_chars text.
Proof.
  unfold arabic_chars, len. f_equal.
  induction text as [|c text IH]; simpl; [reflexivity|].
  destruct (isspace c) eqn:S; simpl.
  - destruct (is_arabic c) eqn:A; [|exact IH].
    apply arabic_not_space in A. congruence.
  - destruct (is_arabic c); simpl; now rewrite IH.
Qed.

Lemma total_chars_nonspace (text : pystr) :
  total_chars (List.filter (fun c => negb (isspace c)) text) = total_chars text.
Proof.
  unfold total_chars, len. f_equal.
  induction text as [|c text IH]; simpl; [reflexivity|].
  destruct (isspace c) eqn:S; simpl; [exact IH|]. rewrite S. simpl. now rewrite IH.
Qed.

Lemma detect_language_nonspace (text : pystr) :
  detect_language (List.filter (fun c => negb (isspace c)) text)
  = detect_language text.
Proof.
  unfold detect_language, arabic_ratio.
  now rewrite arabic_chars_nonspace, total_chars_nonspace.
Qed.

(** X9: whitespace never weighs on the detection: two texts that are the
    same once their whitespace is taken out are detected alike. *)
Theorem detect_language_whitespace (a b : pystr) :
  List.filter (fun c => negb (isspace c)) a
  = List.filter (fun c => negb (isspace c)) b ->
  detect_language a = detect_language b.
Proof.
  intros E. rewrite <- (detect_language_nonspace a), E.
  apply detect_language_nonspace.
Qed.

Lemma detect_language_whitespace_witness :
  detect_language ([0x0A; 0x20]%N ++ marhaba ++ py "  ok ")
  = detect_language (marhaba ++ py "ok").
Proof.
  apply detect_language_whitespace. vm_compute. reflexivity.
Defined.

Lemma lstrip_nil (s : pystr) :
  lstrip s = [] -> Forall (fun c => isspace c = true) s.
Proof.
  intros E. destruct (lstrip_suffix s) as (p & Hp & Hs).
  rewrite E, app_nil_r in Hp. now subst p.
Qed.

Lemma strip_nil (s : pystr) :
  strip s = [] -> Forall (fun c => isspace c = true) s.
Proof.
  unfold strip, rstrip. intros E.
  apply (f_equal (@rev N)) in E. rewrite rev_involutive in E. simpl in E.
  apply lstrip_nil, List.Forall_rev in E. rewrite rev_involutive in E.
  destruct (lstrip_suffix s) as (p & Hp & Hs).
  rewrite Hp. apply Forall_app. now split.
Qed.

Lemma split_spaces (s : pystr) :
  Forall (fun c => isspace c = true) s -> split s = [].
Proof.
  unfold split. induction 1 as [|c s Hc _ IH]; simpl; [reflexivity|].
  now rewrite Hc.
Qed.

Lemma blank_no_words (line : pystr) : nonblank line = false -> split line = [].
Proof.
  unfold nonblank. intros E. apply truthy_false in E.
  now apply split_spaces, strip_nil.
Qed.

(** X10: the guard [if line.strip()] of [count_words] changes nothing: the
    count is the sum, over all the lines, of the number of words of the
    line; so it adds up over a concatenation of line lists. *)
Theorem count_words_every_line (a b : list pystr) :
  count_words a
  = fold_right Z.add 0
      (List.map (fun line => Z.of_nat (length (split line))) a)
  /\ count_words (a ++ b) = count_words a + count_words b.
Proof.
  split.
  - unfold count_words. induction a as [|line a IH]; simpl; [reflexivity|].
    destruct (truthy (strip line)) eqn:E; simpl; rewrite IH; [reflexivity|].
    now rewrite (blank_no_words line E).
  - unfold count_words. rewrite List.filter_app, List.map_app.
    generalize (List.map (fun line => Z.of_nat (length (split line)))
                  (List.filter (fun line => truthy (strip line)) a)).
    intros l. induction l as [|x l IH]; simpl; [reflexivity | lia].
Qed.

(** ** The worker: what it leaves alone, how it ends *)

Section WorkerMore.

Variable from_pretrained : pystr -> option pystr.
Variable generate : pystr -> pystr -> reply pystr.
Variable read_pdf : pystr -> reply (list pystr).
Variable open_w : pystr -> option pystr.
Variable f_write : pystr -> pystr -> option (pystr * pystr).
Variable repr : pystr -> pystr.
Variable splitext_root : pystr -> pystr.
Variable path_join : pystr -> pystr -> pystr.

Local Abbreviation translate_text := (translate_text from_pretrained generate).
Local Abbreviation translate_lines := (translate_lines from_pretrained generate).
Local Abbreviation task_body :=
  (task_body from_pretrained generate read_pdf open_w f_write repr
             splitext_root path_join).
Local Abbreviation run_translation_task :=
  (run_translation_task from_pretrained generate read_pdf open_w f_write repr
                        splitext_root path_join).
Local Abbreviation extracted := (extracted read_pdf).
Local Abbreviation output_path := (output_path splitext_root path_join).

Section Respects.

Variable R : world -> world -> Prop.
Hypothesis R_refl : forall w, R w w.
Hypothesis R_trans : forall w1 w2 w3, R w1 w2 -> R w2 w3 -> R w1 w3.

Lemma respects_ret {A} (a : A) : respects R (ret a).
Proof. intros w. apply R_refl. Qed.

Lemma respects_raise {A} (msg : pystr) : respects R (@raise world A msg).
Proof. intros w. apply R_refl. Qed.

Lemma respects_bind {A B} (m : M world A) (k : A -> M world B) :
  respects R m -> (forall a, respects R (k a)) -> respects R (bind m k).
Proof.
  intros Hm Hk w. specialize (Hm w). unfold bind.
  destruct (m w) as [[a|msg|code] w1]; simpl in *; try exact Hm.
  eapply R_trans; [exact Hm | apply Hk].
Qed.

Lemma respects_try_except {A} (body : M world A) (handler : pystr -> M world A) :
  respects R body -> (forall msg, respects R (handler msg)) ->
  respects R (try_except body handler).
Proof.
  intros Hb Hh w. specialize (Hb w). unfold try_except.
  destruct (body w) as [[a|msg|code] w1]; simpl in *; try exact Hb.
  eapply R_trans; [exact Hb | apply Hh].
Qed.

Lemma respects_try_finally {A} (body : M world A) (cleanup : M world unit) :
  respects R body -> respects R cleanup -> respects R (try_finally body cleanup).
Proof.
  intros Hb Hc w. specialize (Hb w). unfold try_finally.
  destruct (body w) as [r w1]. simpl in Hb. specialize (Hc w1).
  destruct (cleanup w1) as [[[]|msg|code] w2]; simpl in *;
    eapply R_trans; eassumption.
Qed.

End Respects.

Lemma untouched_refl task_id pdf_path output w :
  untouched task_id pdf_path output w w.
Proof. now constructor. Qed.

Lemma untouched_trans task_id pdf_path output w1 w2 w3 :
  untouched task_id pdf_path output w1 w2 ->
  untouched task_id pdf_path output w2 w3 ->
  untouched task_id pdf_path output w1 w3.
Proof.
  intros [T1 F1] [T2 F2]. constructor.
  - intros id Hid. now rewrite T2, T1.
  - intros p H1 H2. now rewrite F2, F1.
Qed.

Lemma untouched_set_item task_id pdf_path output f e :
  respects (untouched task_id pdf_path output) (set_item repr task_id f e).
Proof.
  intros w. unfold set_item.
  destruct (tasks w !! task_id); simpl; [|apply untouched_refl].
  constructor; simpl; [|reflexivity].
  intros id Hid. now apply lookup_insert_ne.
Qed.

Lemma untouched_task_body task_id pdf_path original_filename direction :
  respects (untouched task_id pdf_path (output_path original_filename))
           (task_body task_id pdf_path original_filename direction).
Proof.
  set (R := untouched task_id pdf_path (output_path original_filename)).
  assert (Rr : forall w, R w w) by (intros; apply untouched_refl).
  assert (Rt : forall w1 w2 w3, R w1 w2 -> R w2 w3 -> R w1 w3)
    by (intros ? ? ?; apply untouched_trans).
  unfold Main.task_body.
  apply (respects_bind R Rt); [apply untouched_set_item|]. intros _.
  apply (respects_bind R Rt).
  { intros w. rewrite extract_pdf_lines_eq. apply Rr. }
  intros lines. apply (respects_bind R Rt).
  { destruct lines; [apply respects_raise | apply respects_ret]; exact Rr. }
  intros _. apply (respects_bind R Rt).
  { intros w. unfold lift. destruct (Main.translate_lines _ _ _ _ _).
    now constructor. }
  intros out. apply (respects_bind R Rt).
  { intros w. unfold write_text. fold (output_path original_filename).
    destruct (open_w _); simpl; [apply Rr|].
    destruct (f_write _ _) as [[msg written]|]; simpl.
    all: constructor; simpl; [reflexivity|].
    all: intros p _ Hp; now apply lookup_insert_ne. }
  intros _. apply (respects_bind R Rt); [apply untouched_set_item|].
  intros _. apply untouched_set_item.
Qed.

(** X11: a worker changes no job of the table but its own, and no file but
    its temporary input and its output. *)
Theorem worker_isolation
    (task_id pdf_path original_filename : pystr) (direction : option pystr)
    (w : world) :
  (forall id, id <> task_id ->
     tasks (snd (run_translation_task task_id pdf_path original_filename
                                      direction w)) !! id
     = tasks w !! id)
  /\ (forall p, p <> pdf_path -> p <> output_path original_filename ->
        files (snd (run_translation_task task_id pdf_path original_filename
                                         direction w)) !! p
        = files w !! p).
Proof.
  set (R := untouched task_id pdf_path (output_path original_filename)).
  assert (Rr : forall w, R w w) by (intros; apply untouched_refl).
  assert (Rt : forall w1 w2 w3, R w1 w2 -> R w2 w3 -> R w1 w3)
    by (intros ? ? ?; apply untouched_trans).
  assert (H : respects R (run_translation_task task_id pdf_path
                            original_filename direction)).
  { unfold Main.run_translation_task.
    apply (respects_try_finally R Rt).
    - apply (respects_try_except R Rt); [apply untouched_task_body|].
      intros msg. unfold task_failed.
      apply (respects_bind R Rt); [apply untouched_set_item|].
      intros _. apply untouched_set_item.
    - intros w0. unfold remove_if_exists.
      destruct (files w0 !! pdf_path); simpl; [|apply Rr].
      constructor; simpl; [reflexivity|].
      intros p Hp _. now apply lookup_delete_ne. }
  destruct (H w) as [T F]. split; assumption.
Qed.

Lemma translate_text_exit_code (text : pystr) (direction : option pystr)
                               (t : state) (code : Z) :
  fst (translate_text text direction t) = Exit code -> code = 1.
Proof.
  rewrite (translate_text_unfold from_pretrained generate).
  set (t0 := with_calls t _).
  pose proof (load_model_outcome from_pretrained t0 (resolve direction text))
    as HL.
  unfold bind, ret.
  destruct (load_model from_pretrained (resolve direction text) t0)
    as [[[]|m|c] t1]; simpl in HL.
  - pose proof (translate_chunks_outcome generate (resolve direction text)
                  (chunk_text text 512) [] t1) as HC.
    destruct (translate_chunks generate [] (chunk_text text 512)
                (resolve direction text) t1) as [[v|m|c] t2];
      simpl in HC |- *; [discriminate | discriminate | contradiction].
  - discriminate.
  - destruct HL as (-> & _). now intros [= <-].
Qed.

Lemma translate_lines_exit_code (direction : option pystr) (lines : list pystr) :
  forall t code, fst (translate_lines lines direction t) = Exit code -> code = 1.
Proof.
  induction lines as [|line rest IH]; intros t code; [discriminate|].
  rewrite translate_lines_cons. unfold bind, ret.
  destruct (truthy (strip line)).
  - pose proof (translate_text_exit_code line direction t) as H1.
    destruct (Translator.translate_text _ _ line direction t) as [[v|m|c] t1];
      simpl in H1 |- *.
    + specialize (IH t1).
      destruct (Main.translate_lines _ _ rest direction t1) as [[o|m|c] t2];
        simpl in IH |- *; [discriminate | discriminate |].
      intros [= <-]. now apply IH.
    + discriminate.
    + intros [= <-]. now apply H1.
  - specialize (IH t).
    destruct (Main.translate_lines _ _ rest direction t) as [[o|m|c] t2];
      simpl in IH |- *; [discriminate | discriminate |].
    intros [= <-]. now apply IH.
Qed.

Lemma remove_if_exists_run (path : pystr) (w : world) :
  exists w',
    remove_if_exists path w = (Ok tt, w')
    /\ tasks w' = tasks w /\ translator w' = translator w
    /\ files w' = delete path (files w).
Proof.
  unfold remove_if_exists. destruct (files w !! path) eqn:E.
  - eexists. split; [reflexivity|]. now repeat split.
  - exists w. split; [reflexivity|]. repeat split.
    symmetry. now apply delete_id.
Qed.

(** The worker is its [try]/[except], then the removal of the input. *)
Lemma run_translation_task_split task_id pdf_path original_filename direction w :
  exists w',
    run_translation_task task_id pdf_path original_filename direction w
    = (fst (try_except (task_body task_id pdf_path original_filename direction)
                       (task_failed repr task_id) w), w')
    /\ tasks w'
       = tasks (snd (try_except
                       (task_body task_id pdf_path original_filename direction)
                       (task_failed repr task_id) w))
    /\ files w'
       = delete pdf_path
           (files (snd (try_except
                          (task_body task_id pdf_path original_filename direction)
                          (task_failed repr task_id) w))).
Proof.
  unfold Main.run_translation_task, try_finally.
  destruct (try_except _ _ w) as [r w1]. simpl.
  destruct (remove_if_exists_run pdf_path w1) as (w' & E & T & _ & F).
  exists w'. rewrite E. now repeat split.
Qed.

Lemma task_body_ok task_id pdf_path original_filename direction w w1 :
  task_body task_id pdf_path original_filename direction w = (Ok tt, w1) ->
  exists job out,
    tasks w !! task_id = Some job
    /\ extracted (files w) pdf_path <> []
    /\ translate_lines (extracted (files w) pdf_path) direction (translator w)
       = (Ok out, translator w1)
    /\ files w1
       = <[output_path original_filename := join [0x0A%N] out]> (files w)
    /\ tasks w1 !! task_id
       = Some {| status := completed;
                 result :=
                   Some {| original_lines := extracted (files w) pdf_path;
                           translated_lines := out;
                           word_count_original :=
                             count_words (extracted (files w) pdf_path);
                           word_count_translated := count_words out;
                           output_file := output_path original_filename |};
                 error := error job |}.
Proof.
  intros H. unfold Main.task_body in H.
  unfold bind at 1 in H. unfold set_status at 1, set_item at 1 in H.
  destruct (tasks w !! task_id) as [job|] eqn:Hj; [|discriminate H].
  unfold bind at 1 in H. rewrite extract_pdf_lines_eq in H. cbn [files] in H.
  destruct (extracted (files w) pdf_path) as [|l ls] eqn:El;
    [discriminate H|].
  unfold bind at 1 in H. unfold ret at 1 in H.
  unfold bind at 1 in H. unfold lift in H. cbn [translator] in H.
  destruct (translate_lines (l :: ls) direction (translator w))
    as [[out|m|c] t1] eqn:Ht; try discriminate H.
  unfold bind at 1 in H. unfold write_text in H.
  fold (output_path original_filename) in H.
  destruct (open_w (output_path original_filename)); [discriminate H|].
  destruct (f_write (output_path original_filename) (join [0x0A%N] out))
    as [[msg written]|]; [discriminate H|].
  unfold bind at 1 in H. unfold set_status, set_item in H. cbn [tasks] in H.
  rewrite lookup_insert_eq in H.
  unfold set_result, set_item in H. cbn [tasks] in H.
  rewrite lookup_insert_eq in H.
  injection H as <-. exists job, out. cbn.
  split; [reflexivity|]. split; [discriminate|]. split; [reflexivity|].
  split; [reflexivity|]. now rewrite lookup_insert_eq.
Qed.

Lemma task_body_exit task_id pdf_path original_filename direction w code w1 :
  task_body task_id pdf_path original_filename direction w = (Exit code, w1) ->
  code = 1
  /\ exists job, tasks w1 !! task_id = Some job /\ status job = processing.
Proof.
  intros H. unfold Main.task_body in H.
  unfold bind at 1 in H. unfold set_status at 1, set_item at 1 in H.
  destruct (tasks w !! task_id) as [job|] eqn:Hj; [|discriminate H].
  unfold bind at 1 in H. rewrite extract_pdf_lines_eq in H. cbn [files] in H.
  destruct (extracted (files w) pdf_path) as [|l ls] eqn:El;
    [discriminate H|].
  unfold bind at 1 in H. unfold ret at 1 in H.
  unfold bind at 1 in H. unfold lift in H. cbn [translator] in H.
  pose proof (translate_lines_exit_code direction (l :: ls) (translator w))
    as Hc.
  destruct (translate_lines (l :: ls) direction (translator w))
    as [[out|m|c] t1] eqn:Ht; simpl in Hc.
  - exfalso. unfold bind at 1 in H. unfold write_text in H.
    destruct (open_w _); [discriminate H|].
    destruct (f_write _ _) as [[msg written]|]; [discriminate H|].
    unfold bind at 1 in H. unfold set_status, set_item in H. cbn [tasks] in H.
    rewrite lookup_insert_eq in H.
    unfold set_result, set_item in H. cbn [tasks] in H.
    rewrite lookup_insert_eq in H. discriminate H.
  - discriminate H.
  - injection H as <- <-. split; [now apply Hc|].
    eexists. cbn. rewrite lookup_insert_eq. split; reflexivity.
Qed.

(** How a run of the worker for a job of the table can end. *)
Lemma worker_result task_id pdf_path original_filename direction w :
  is_Some (tasks w !! task_id) ->
  match fst (run_translation_task task_id pdf_path original_filename
                                  direction w) with
  | Ok _ =>
      exists job,
        tasks (snd (run_translation_task task_id pdf_path original_filename
                                         direction w)) !! task_id = Some job
        /\ ((status job = failed /\ exists msg, error job = Some msg)
            \/ (status job = completed
                /\ exists r, result job = Some r
                     /\ (output_path original_filename <> pdf_path ->
                         payload_agrees
                           (extracted (files w) pdf_path)
                           (output_path original_filename)
                           (files (snd (run_translation_task task_id pdf_path
                                          original_filename direction w)))
                           r)))
  | Raise _ => False
  | Exit code =>
      code = 1
      /\ exists job,
           tasks (snd (run_translation_task task_id pdf_path original_filename
                                            direction w)) !! task_id = Some job
           /\ status job = processing
  end.
Proof.
  intros Hreg.
  destruct (task_body task_id pdf_path original_filename direction w)
    as [[[]|msg|code] w1] eqn:Hb.
  - destruct (run_translation_task_split task_id pdf_path original_filename
                direction w) as (w' & E & T & F).
    unfold try_except in E, T, F. rewrite Hb in E, T, F. simpl in E, T, F.
    rewrite E. simpl.
    destruct (task_body_ok _ _ _ _ _ _ Hb) as (job & out & Hj & Hne & Ht & Hf & Hl).
    eexists. rewrite T. split; [exact Hl|]. right. split; [reflexivity|].
    eexists. split; [reflexivity|]. intros Hp.
    destruct (translate_lines_spec from_pretrained generate direction
                (extracted (files w) pdf_path) (translator w))
      as (evs & _ & _ & _ & Hv).
    rewrite Ht in Hv. simpl in Hv. destruct (Hv out eq_refl) as (_ & F2).
    unfold payload_agrees. cbn.
    split; [reflexivity|]. split; [symmetry; exact (Forall2_length _ _ _ F2)|].
    split; [reflexivity|]. split; [reflexivity|]. split; [reflexivity|].
    rewrite F, Hf, lookup_delete_ne by congruence. apply lookup_insert_eq.
  - pose proof (worker_catches from_pretrained generate read_pdf open_w
                                        f_write repr
                  splitext_root path_join _ _ _ _ _ _ _ Hreg Hb)
      as (E & job & Hj & Hs & He).
    rewrite E. exists job. split; [exact Hj|]. left. split; [exact Hs|]. eauto.
  - destruct (run_translation_task_split task_id pdf_path original_filename
                direction w) as (w' & E & T & F).
    unfold try_except in E, T, F. rewrite Hb in E, T, F. simpl in E, T, F.
    rewrite E. simpl. rewrite T. exact (task_body_exit _ _ _ _ _ _ _ Hb).
Qed.

(** X12: for a job of the table the worker never raises to its caller; it
    can only be left through [sys.exit], with code 1 (a model that does not
    load), and then the job stays in [processing]: it never reaches a
    terminal status. *)
Theorem worker_never_raises
    (task_id pdf_path original_filename : pystr) (direction : option pystr)
    (w : world) :
  is_Some (tasks w !! task_id) ->
  (forall msg,
     fst (run_translation_task task_id pdf_path original_filename direction w)
     <> Raise msg)
  /\ (forall code,
        fst (run_translation_task task_id pdf_path original_filename
                                  direction w) = Exit code ->
        code = 1
        /\ exists job,
             tasks (snd (run_translation_task task_id pdf_path
                           original_filename direction w)) !! task_id = Some job
             /\ status job = processing).
Proof.
  intros Hreg.
  pose proof (worker_result task_id pdf_path original_filename direction w Hreg)
    as H.
  destruct (fst (run_translation_task task_id pdf_path original_filename
                                      direction w)) as [[]|msg|code].
  - split; [discriminate | intros ? [=]].
  - contradiction.
  - split; [discriminate|]. now intros ? [= <-].
Qed.

(** X13: when the worker returns for a job of the table, the job is failed
    with an error, or completed with a payload that agrees with the run: the
    extracted lines, as many translated lines, the word counts of both, and
    the name of the output file, which then holds the translated lines
    joined by line feeds (the output being another file than the input). *)
Theorem worker_completed_payload
    (task_id pdf_path original_filename : pystr) (direction : option pystr)
    (w : world) :
  is_Some (tasks w !! task_id) ->
  output_path original_filename <> pdf_path ->
  fst (run_translation_task task_id pdf_path original_filename direction w)
  = Ok tt ->
  exists job,
    tasks (snd (run_translation_task task_id pdf_path original_filename
                                     direction w)) !! task_id = Some job
    /\ ((status job = failed /\ exists msg, error job = Some msg)
        \/ (status job = completed
            /\ exists r, result job = Some r
                 /\ payload_agrees
                      (extracted (files w) pdf_path)
                      (output_path original_filename)
                      (files (snd (run_translation_task task_id pdf_path
                                     original_filename direction w)))
                      r)).
Proof.
  intros Hreg Hp Hok.
  pose proof (worker_result task_id pdf_path original_filename direction w Hreg)
    as H.
  rewrite Hok in H. destruct H as (job & Hj & [Hf|(Hc & r & Hr & Ha)]).
  - exists job. split; [exact Hj | now left].
  - exists job. split; [exact Hj|]. right. split; [exact Hc|].
    exists r. split; [exact Hr | exact (Ha Hp)].
Qed.

(** X14: after the worker has returned for a job of the table, the status
    lookup of that job answers [completed] with its result or [failed] with
    its error, and never [pending] or [processing]. *)
Theorem status_after_worker
    (task_id pdf_path original_filename : pystr) (direction : option pystr)
    (w : world) :
  is_Some (tasks w !! task_id) ->
  fst (run_translation_task task_id pdf_path original_filename direction w)
  = Ok tt ->
  (exists r,
     Api.get_status task_id
       (snd (run_translation_task task_id pdf_path original_filename
                                  direction w))
     = Api.StatusFound task_id completed (Some (Some r)) None)
  \/ (exists msg,
        Api.get_status task_id
          (snd (run_translation_task task_id pdf_path original_filename
                                     direction w))
        = Api.StatusFound task_id failed None (Some (Some msg))).
Proof.
  intros Hreg Hok.
  pose proof (worker_result task_id pdf_path original_filename direction w Hreg)
    as H.
  rewrite Hok in H.
  destruct H as (job & Hj & [(Hf & msg & Hm)|(Hc & r & Hr & _)]).
  - right. exists msg. unfold Api.get_status. now rewrite Hj, Hf, Hm.
  - left. exists r. unfold Api.get_status. now rewrite Hj, Hc, Hr.
Qed.


End WorkerMore.

Lemma worker_never_raises_witness :
  exists job,
    tasks (snd (run_translation_task missing_pretrained stub_generate good_pdf
                  stub_open stub_write stub_repr stub_splitext stub_join
                  job_id tmp_pdf (py "doc") None started)) !! job_id = Some job
    /\ status job = processing.
Proof.
  apply (proj2 (worker_never_raises missing_pretrained stub_generate good_pdf
                  stub_open stub_write stub_repr
                  stub_splitext stub_join job_id tmp_pdf (py "doc")
                  None started started_registered) 1).
  vm_compute. reflexivity.
Defined.

Lemma worker_completed_payload_witness :
  exists job,
    tasks (snd (run_translation_task stub_pretrained stub_generate good_pdf
                  stub_open stub_write stub_repr stub_splitext stub_join
                  job_id tmp_pdf (py "doc") None started)) !! job_id = Some job
    /\ ((status job = failed /\ exists msg, error job = Some msg)
        \/ (status job = completed
            /\ exists r, result job = Some r
                 /\ payload_agrees
                      (extracted good_pdf (files started) tmp_pdf)
                      (output_path stub_splitext stub_join (py "doc"))
                      (files (snd (run_translation_task stub_pretrained
                                     stub_generate good_pdf stub_open
                                     stub_write stub_repr
                                     stub_splitext stub_join
                                     job_id tmp_pdf (py "doc") None started)))
                      r)).
Proof.
  apply (worker_completed_payload stub_pretrained stub_generate good_pdf
           stub_open stub_write stub_repr
           stub_splitext stub_join job_id tmp_pdf (py "doc") None
           started started_registered).
  - vm_compute. discriminate.
  - vm_compute. reflexivity.
Defined.

Lemma status_after_worker_witness :
  (exists r,
     Api.get_status job_id
       (snd (run_translation_task stub_pretrained failing_generate good_pdf
               stub_open stub_write stub_repr stub_splitext stub_join
               job_id tmp_pdf (py "doc") None started))
     = Api.StatusFound job_id completed (Some (Some r)) None)
  \/ (exists msg,
        Api.get_status job_id
          (snd (run_translation_task stub_pretrained failing_generate good_pdf
                  stub_open stub_write stub_repr stub_splitext stub_join
                  job_id tmp_pdf (py "doc") None started))
        = Api.StatusFound job_id failed None (Some (Some msg))).
Proof.
  apply (status_after_worker stub_pretrained failing_generate good_pdf
           stub_open stub_write stub_repr
           stub_splitext stub_join job_id tmp_pdf (py "doc") None
           started started_registered).
  vm_compute. reflexivity.
Defined.


Example status_unknown_job :
  Api.get_status (py "job-2") started = Api.StatusNotFound (py "Task not found.").
Proof. vm_compute. reflexivity. Qed.

(** ** The worker on a job that is not in the table *)

(** X24: for a job id that is not in the table, the worker raises the
    [KeyError] of that id to its caller (the handler of the first one raises
    it again), whose message is the [repr] of the id, whatever the id;
    it changes no job, and still removes the input file. *)
Theorem worker_unknown_job
    (from_pretrained : pystr -> option pystr)
    (generate : pystr -> pystr -> reply pystr)
    (read_pdf : pystr -> reply (list pystr))
    (open_w : pystr -> option pystr)
    (f_write : pystr -> pystr -> option (pystr * pystr))
    (repr : pystr -> pystr)
    (splitext_root : pystr -> pystr) (path_join : pystr -> pystr -> pystr)
    (task_id pdf_path original_filename : pystr) (direction : option pystr)
    (w : world) :
  tasks w !! task_id = None ->
  fst (run_translation_task from_pretrained generate read_pdf open_w
                                        f_write repr
         splitext_root path_join task_id pdf_path original_filename
         direction w) = Raise (repr task_id)
  /\ tasks (snd (run_translation_task from_pretrained generate read_pdf open_w
                                        f_write repr
                   splitext_root path_join task_id pdf_path original_filename
                   direction w)) = tasks w
  /\ files (snd (run_translation_task from_pretrained generate read_pdf open_w
                                        f_write repr
                   splitext_root path_join task_id pdf_path original_filename
                   direction w)) = delete pdf_path (files w).
Proof.
  intros Hn.
  destruct (run_translation_task_split from_pretrained generate read_pdf open_w
                                        f_write repr
              splitext_root path_join task_id pdf_path original_filename
              direction w) as (w' & E & T & F).
  assert (B : try_except
                (task_body from_pretrained generate read_pdf open_w f_write repr
                           splitext_root path_join task_id pdf_path
                           original_filename direction)
                (task_failed repr task_id) w
              = (Raise (repr task_id), w)).
  { unfold try_except, task_body, task_failed, bind, set_status, set_item,
      key_error.
    rewrite Hn. cbv beta iota. now rewrite Hn. }
  rewrite B in E, T, F. simpl in E, T, F. rewrite E. simpl.
  now repeat split.
Qed.

Lemma worker_unknown_job_witness :
  fst (run_translation_task stub_pretrained stub_generate good_pdf stub_open
  stub_write stub_repr
         stub_splitext stub_join (py "job-2") tmp_pdf (py "doc") None started)
  = Raise (py "'job-2'")
  /\ files (snd (run_translation_task stub_pretrained stub_generate good_pdf
                   stub_open stub_write stub_repr
                   stub_splitext stub_join (py "job-2") tmp_pdf
                   (py "doc") None started)) !! tmp_pdf = None.
Proof.
  destruct (worker_unknown_job stub_pretrained stub_generate good_pdf stub_open
  stub_write stub_repr
              stub_splitext stub_join (py "job-2") tmp_pdf (py "doc") None
              started ltac:(vm_compute; reflexivity)) as (R & _ & F).
  split; [exact R|]. rewrite F. apply lookup_delete_eq.
Defined.

(** ** The text endpoint and the saved lines *)

Section TextEndpoint.

Variable from_pretrained : pystr -> option pystr.
Variable generate : pystr -> pystr -> reply pystr.

Local Abbreviation translate_lines := (translate_lines from_pretrained generate).
Local Abbreviation translate_text_endpoint :=
  (Api.translate_text_endpoint from_pretrained generate).

Lemma translate_lines_all_blank (direction : option pystr) (lines : list pystr)
                                (t : state) :
  Forall (fun line => nonblank line = false) lines ->
  translate_lines lines direction t = (Ok (List.map (fun _ => []) lines), t).
Proof.
  induction 1 as [|line rest Hl _ IH]; [reflexivity|].
  rewrite translate_lines_cons. unfold nonblank in Hl. rewrite Hl.
  unfold bind, ret. now rewrite IH.
Qed.

Lemma count_words_all_blank (lines : list pystr) :
  Forall (fun line => nonblank line = false) lines -> count_words lines = 0.
Proof.
  unfold count_words. induction 1 as [|line rest Hl _ IH]; [reflexivity|].
  simpl. unfold nonblank in Hl. now rewrite Hl.
Qed.

(** X16: a text whose lines are all blank (the empty text too, which is not
    refused) is answered with as many empty strings as it has lines and two
    word counts of 0, and the translator is not touched: no detection, no
    model load, no engine call. *)
Theorem text_endpoint_blank
    (text : pystr) (direction : option pystr) (t : state) :
  Forall (fun line => nonblank line = false) (splitlines text) ->
  translate_text_endpoint
    (Some {| Api.body_text := Some text; Api.body_direction := direction |}) t
  = (Ok (Api.TextOk (splitlines text)
                    (List.map (fun _ => []) (splitlines text)) 0 0), t).
Proof.
  intros B. unfold Api.translate_text_endpoint. cbn [Api.body_text Api.body_direction].
  unfold bind, ret. rewrite (translate_lines_all_blank direction _ t B).
  rewrite (count_words_all_blank _ B), count_words_all_blank; [reflexivity|].
  clear B. induction (splitlines text); constructor; [reflexivity | assumption].
Qed.

(** X17: when nothing fails on the lines of the text, the text endpoint
    answers 200 with the lines of the text, as many translated lines, and
    the word counts of both lists. *)
Theorem text_endpoint_aligned
    (text : pystr) (direction : option pystr) (t : state) :
  answers from_pretrained generate t direction (splitlines text) ->
  exists out t',
    translate_text_endpoint
      (Some {| Api.body_text := Some text; Api.body_direction := direction |}) t
    = (Ok (Api.TextOk (splitlines text) out
                      (count_words (splitlines text)) (count_words out)), t')
    /\ length out = length (splitlines text).
Proof.
  intros A.
  destruct (translate_lines_returns _ _ direction (splitlines text) t A)
    as (out & t' & R).
  exists out, t'. split.
  - unfold Api.translate_text_endpoint. cbn [Api.body_text Api.body_direction].
    unfold bind, ret. now rewrite R.
  - destruct (translate_lines_spec from_pretrained generate direction
                (splitlines text) t) as (evs & _ & _ & _ & Hv).
    rewrite R in Hv. simpl in Hv. destruct (Hv out eq_refl) as (_ & F).
    symmetry. exact (Forall2_length _ _ _ F).
Qed.

End TextEndpoint.

Lemma text_endpoint_blank_witness :
  Api.translate_text_endpoint stub_pretrained stub_generate
    (Some {| Api.body_text := Some ([0x20; 0x0A; 0x0A; 0x09]%N);
             Api.body_direction := None |}) fresh
  = (Ok (Api.TextOk [[0x20%N]; []; [0x09%N]] [[]; []; []] 0 0), fresh).
Proof.
  apply (text_endpoint_blank stub_pretrained stub_generate
           [0x20; 0x0A; 0x0A; 0x09]%N None fresh).
  vm_compute. repeat constructor.
Defined.

Lemma text_endpoint_aligned_witness :
  exists out t',
    Api.translate_text_endpoint stub_pretrained stub_generate
      (Some {| Api.body_text := Some (py "Hello" ++ [0x0A; 0x0A]%N ++ marhaba);
               Api.body_direction := None |}) fresh
    = (Ok (Api.TextOk (splitlines (py "Hello" ++ [0x0A; 0x0A]%N ++ marhaba)) out
                      (count_words
                         (splitlines (py "Hello" ++ [0x0A; 0x0A]%N ++ marhaba)))
                      (count_words out)), t')
    /\ length out = 3%nat.
Proof.
  apply (text_endpoint_aligned stub_pretrained stub_generate
           (py "Hello" ++ [0x0A; 0x0A]%N ++ marhaba) None fresh).
  apply stub_answers. intros line _. apply resolve_auto_supported.
Defined.

(** ** Lines and line breaks *)

Lemma splitlines_from_nonempty (s : pystr) :
  forall line after_cr, line <> [] -> splitlines_from line after_cr s <> [].
Proof.
  induction s as [|c s IH]; intros line after_cr Hl; simpl.
  - destruct line; [congruence | discriminate].
  - destruct ((c =? 0x0A)%N && after_cr); [now apply IH|].
    destruct (is_linebreak c); [discriminate|]. now apply IH.
Qed.

Lemma splitlines_from_plain (l : pystr) :
  Forall (fun c => is_linebreak c = false) l ->
  forall line after_cr rest,
    l <> [] ->
    splitlines_from line after_cr (l ++ rest)
    = splitlines_from (rev l ++ line) false rest.
Proof.
  induction 1 as [|c l Hc _ IH]; intros line after_cr rest Hne; [congruence|].
  simpl.
  assert (Hn : (c =? 0x0A)%N = false).
  { destruct (N.eqb_spec c 0x0A) as [->|]; [discriminate Hc | reflexivity]. }
  rewrite Hn, Hc. simpl andb. cbv iota.
  destruct l as [|c' l].
  - reflexivity.
  - rewrite IH by discriminate. now rewrite <- app_assoc.
Qed.

Lemma splitlines_from_feed (line rest : pystr) :
  splitlines_from line false (0x0A%N :: rest)
  = rev line :: splitlines_from [] false rest.
Proof. reflexivity. Qed.

(** X18: a text that is not empty has at least one line, and only the empty
    text has none. *)
Theorem splitlines_none (s : pystr) : splitlines s = [] <-> s = [].
Proof.
  split; [|now intros ->].
  unfold splitlines. destruct s as [|c s]; [reflexivity|]. simpl.
  rewrite andb_false_r.
  destruct (is_linebreak c); [discriminate|].
  intros H. now apply splitlines_from_nonempty in H.
Qed.

(** X19: the saved output reads back as the translated lines: joining lines
    with a line feed and splitting the result gives the lines again, when
    no line holds a line break and the last line is not empty. *)
Theorem saved_lines_round_trip (lines : list pystr) (final : pystr) :
  Forall (Forall (fun c => is_linebreak c = false)) (lines ++ [final]) ->
  final <> [] ->
  splitlines (join [0x0A%N] (lines ++ [final])) = lines ++ [final].
Proof.
  intros H Hf. unfold splitlines.
  induction lines as [|l lines IH].
  - simpl. apply Forall_app in H. destruct H as [_ H].
    inversion H as [|? ? Hfin _]; subst.
    rewrite <- (app_nil_r final) at 1.
    rewrite (splitlines_from_plain final Hfin [] false [] Hf).
    simpl. rewrite app_nil_r.
    rewrite rev_involutive.
    assert (T : truthy (rev final) = true).
    { apply truthy_true. intros E. apply (f_equal (@rev N)) in E.
      rewrite rev_involutive in E. contradiction. }
    now rewrite T.
  - inversion H as [|? ? Hl Hrest]; subst.
    change ((l :: lines) ++ [final]) with (l :: (lines ++ [final])).
    destruct (lines ++ [final]) as [|x xs] eqn:Ex.
    { now destruct lines. }
    rewrite join_cons2. rewrite <- Ex in *.
    destruct l as [|c l].
    + simpl app. rewrite splitlines_from_feed.
      rewrite IH by exact Hrest. reflexivity.
    + rewrite (splitlines_from_plain (c :: l) Hl [] false _) by discriminate.
      rewrite app_nil_r. simpl app.
      change (splitlines_from (rev (c :: l)) false
                (0x0A%N :: join [0x0A%N] (lines ++ [final]))
              = (c :: l) :: lines ++ [final]).
      rewrite splitlines_from_feed, rev_involutive.
      rewrite IH by exact Hrest. reflexivity.
Qed.

Lemma saved_lines_round_trip_witness :
  splitlines (join [0x0A%N] ([py "Hello"; []] ++ [py "World"]))
  = [py "Hello"; []] ++ [py "World"].
Proof.
  apply saved_lines_round_trip.
  - vm_compute. repeat constructor.
  - discriminate.
Defined.

(** ** The two extractors *)

Section Extractors.

Variable page_reader : pystr -> reply (list (reply pystr)).

Lemma extend_lines_until (texts : list pystr) (tail : list (reply pystr)) :
  (tail = [] \/ exists msg rest, tail = Throws msg :: rest) ->
  forall lines,
    Ui.extend_lines lines (List.map Returns texts ++ tail)
    = lines ++ concat (List.map splitlines (List.filter truthy texts)).
Proof.
  intros Ht. induction texts as [|text texts IH]; intros lines; simpl.
  - rewrite app_nil_r.
    destruct Ht as [->|(msg & rest & ->)]; reflexivity.
  - destruct (truthy text); simpl; rewrite IH; [|reflexivity].
    now rewrite <- app_assoc.
Qed.

Lemma texts_of_all (texts : list pystr) :
  Ui.texts_of (List.map Returns texts) = Returns texts.
Proof.
  induction texts as [|text texts IH]; simpl; [reflexivity|]. now rewrite IH.
Qed.

Lemma texts_of_until (texts : list pystr) (msg : pystr) (rest : list (reply pystr)) :
  Ui.texts_of (List.map Returns texts ++ Throws msg :: rest) = Throws msg.
Proof.
  induction texts as [|text texts IH]; simpl; [reflexivity|]. now rewrite IH.
Qed.

(** X20: on the same reader the two extractors agree when no page raises;
    when a page raises after some pages were read, the extractor of the
    Streamlit application keeps the lines of the pages before it, and the
    extractor of [main.py] returns no line at all. *)
Theorem extractors_compared
    (w : world) (path content : pystr) (texts : list pystr) :
  files w !! path = Some content ->
  (page_reader content = Returns (List.map Returns texts) ->
   Ui.extract_pdf_lines page_reader (files w) path
   = concat (List.map splitlines (List.filter truthy texts))
   /\ fst (extract_pdf_lines (Ui.whole_reader page_reader) path w)
      = Ok (Ui.extract_pdf_lines page_reader (files w) path))
  /\ (forall msg rest,
        page_reader content
        = Returns (List.map Returns texts ++ Throws msg :: rest) ->
        Ui.extract_pdf_lines page_reader (files w) path
        = concat (List.map splitlines (List.filter truthy texts))
        /\ fst (extract_pdf_lines (Ui.whole_reader page_reader) path w) = Ok []).
Proof.
  intros Hf. split.
  - intros Hr.
    assert (E : Ui.extract_pdf_lines page_reader (files w) path
                = concat (List.map splitlines (List.filter truthy texts))).
    { unfold Ui.extract_pdf_lines. rewrite Hf, Hr.
      rewrite <- (app_nil_r (List.map Returns texts)).
      now rewrite (extend_lines_until texts [] (or_introl eq_refl) []). }
    split; [exact E|].
    unfold extract_pdf_lines, Ui.whole_reader. rewrite Hf, Hr, texts_of_all.
    simpl. now rewrite E.
  - intros msg rest Hr. split.
    + unfold Ui.extract_pdf_lines. rewrite Hf, Hr.
      now rewrite (extend_lines_until texts _
                     (or_intror (ex_intro _ msg (ex_intro _ rest eq_refl))) []).
    + unfold extract_pdf_lines, Ui.whole_reader.
      now rewrite Hf, Hr, texts_of_until.
Qed.

End Extractors.

Lemma extractors_compared_witness :
  Ui.extract_pdf_lines torn_pdf (files started) tmp_pdf
  = [py "Hello"; py "World"]
  /\ fst (extract_pdf_lines (Ui.whole_reader torn_pdf) tmp_pdf started) = Ok [].
Proof.
  destruct (proj2 (extractors_compared torn_pdf started tmp_pdf (py "%PDF-1.4")
                     [py "Hello" ++ [0x0A%N] ++ py "World"]
                     ltac:(vm_compute; reflexivity))
                  (py "Could not read page") [] eq_refl) as [U M].
  split; [|exact M]. rewrite U. vm_compute. reflexivity.
Defined.

(** ** The display loop *)

Section Display.

Variable from_pretrained : pystr -> option pystr.
Variable generate : pystr -> pystr -> reply pystr.

Local Abbreviation translate_lines := (translate_lines from_pretrained generate).
Local Abbreviation answers := (answers from_pretrained generate).
Local Abbreviation consume := (Streamlit.consume from_pretrained generate).

(** What a full pass of the stream hands to its consumer. *)
Lemma stream_views (s : Streamlit.session) (direction : option pystr)
                   (lines : list pystr) (fuel : nat) :
  answers (Streamlit.translator s) direction lines ->
  (length lines < fuel)%nat ->
  exists out s',
    consume fuel (Streamlit.translate_lines_streaming lines direction) s
    = (Ok (Some (views [] 0 (Z.of_nat (length lines)) out)), s')
    /\ length out = length lines
    /\ translate_lines lines direction (Streamlit.translator s)
       = (Ok out, Streamlit.translator s').
Proof.
  intros A Hf. destruct fuel as [|fuel]; [lia|].
  set (l := length (Streamlit.heap s)).
  set (s0 := {| Streamlit.translator := Streamlit.translator s;
                Streamlit.heap := Streamlit.heap s ++ [[]] |}).
  assert (Hl : Streamlit.heap s0 !! l = Some []).
  { simpl. apply list_lookup_middle. reflexivity. }
  destruct (stream_from from_pretrained generate direction l lines [] [] s0
              (S fuel) Hl A Hf) as (out & s' & Ht & Hc & _).
  simpl in Ht.
  destruct (translate_lines_spec from_pretrained generate direction lines
              (Streamlit.translator s)) as (evs & _ & _ & _ & Hv).
  rewrite Ht in Hv. simpl in Hv. destruct (Hv out eq_refl) as (_ & F).
  exists out, s'. split; [exact Hc|]. split; [|exact Ht].
  symmetry. exact (Forall2_length _ _ _ F).
Qed.

Lemma getitem_pred {A} (l : list A) (k : nat) :
  Ui.getitem l (Z.of_nat (S k) - 1) = l !! k.
Proof.
  unfold Ui.getitem.
  replace (Z.of_nat (S k) - 1) with (Z.of_nat k) by lia.
  assert (H : (0 <=? Z.of_nat k) = true) by (apply Z.leb_le; lia).
  now rewrite H, Nat2Z.id.
Qed.

Lemma views_snoc (total : Z) (out : list pystr) (x : pystr) :
  views [] 0 total (out ++ [x])
  = views [] 0 total out
    ++ [(out ++ [x], Z.of_nat (S (length out)), total)].
Proof.
  unfold views. rewrite imap_app. f_equal.
  - apply imap_ext. intros k y Hk. simpl.
    apply lookup_lt_Some in Hk.
    rewrite take_app_le by lia. reflexivity.
  - simpl. rewrite Nat.add_0_r.
    rewrite take_app_ge by lia.
    replace (S (length out) - length out)%nat with 1%nat by lia.
    reflexivity.
Qed.

Lemma show_all_views (lines : list pystr) :
  forall out,
    (length out <= length lines)%nat ->
    Ui.show_all lines (views [] 0 (Z.of_nat (length lines)) out)
    = Some {| Ui.orig_full_text :=
                concat (List.map (fun l => l ++ [0x0A%N])
                                 (take (length out) lines));
              Ui.trans_full_text :=
                concat (List.map (fun l => l ++ [0x0A%N])
                                 (List.filter truthy out)) |}.
Proof.
  induction out as [|x out IH] using rev_ind; intros Hlen.
  - reflexivity.
  - rewrite length_app in Hlen. simpl in Hlen.
    rewrite views_snoc. unfold Ui.show_all in *.
    rewrite fold_left_app, IH by lia. simpl fold_left.
    unfold Ui.show_step.
    assert (H1 : (Z.of_nat (S (length out)) <=? Z.of_nat (length lines)) = true)
      by (apply Z.leb_le; lia).
    rewrite H1, getitem_pred.
    destruct (lookup_lt_is_Some_2 lines (length out)) as (line & Hline); [lia|].
    rewrite Hline.
    assert (H2 : (Z.of_nat (S (length out))
                  <=? Z.of_nat (length (out ++ [x]))) = true)
      by (apply Z.leb_le; rewrite length_app; simpl; lia).
    rewrite H2, getitem_pred.
    rewrite (list_lookup_middle out [] x (length out) eq_refl).
    cbn [Ui.orig_full_text Ui.trans_full_text].
    rewrite length_app. simpl length.
    replace (length out + 1)%nat with (S (length out)) by lia.
    rewrite (take_S_r lines (length out) line Hline).
    rewrite List.map_app, concat_app, List.filter_app. simpl.
    rewrite !app_nil_r.
    destruct (truthy x).
    + now rewrite List.map_app, concat_app; simpl; rewrite app_nil_r.
    + now rewrite app_nil_r.
Qed.

(** X21: after a full pass of the stream, the display loop has built the
    original text from all the lines, each followed by a line feed, and the
    translated text from the translated lines that are not empty, each
    followed by a line feed: the empty translations, those of the blank
    lines among them, are not shown. *)
Theorem display_after_stream
    (s : Streamlit.session) (direction : option pystr) (lines : list pystr)
    (fuel : nat) :
  answers (Streamlit.translator s) direction lines ->
  (length lines < fuel)%nat ->
  exists out steps s',
    consume fuel (Streamlit.translate_lines_streaming lines direction) s
    = (Ok (Some steps), s')
    /\ translate_lines lines direction (Streamlit.translator s)
       = (Ok out, Streamlit.translator s')
    /\ Ui.show_all lines steps
       = Some {| Ui.orig_full_text :=
                   concat (List.map (fun l => l ++ [0x0A%N]) lines);
                 Ui.trans_full_text :=
                   concat (List.map (fun l => l ++ [0x0A%N])
                                    (List.filter truthy out)) |}.
Proof.
  intros A Hf.
  destruct (stream_views s direction lines fuel A Hf) as (out & s' & C & L & T).
  exists out, (views [] 0 (Z.of_nat (length lines)) out), s'.
  split; [exact C|]. split; [exact T|].
  rewrite show_all_views by lia. rewrite L, firstn_all. reflexivity.
Qed.

End Display.

Lemma display_after_stream_witness :
  exists out steps s',
    Streamlit.consume stub_pretrained stub_generate 4
      (Streamlit.translate_lines_streaming [py "Hello"; []; py "World"]
                                           (Some (py "en2ar")))
      new_session
    = (Ok (Some steps), s')
    /\ translate_lines stub_pretrained stub_generate
                       [py "Hello"; []; py "World"] (Some (py "en2ar")) fresh
       = (Ok out, Streamlit.translator s')
    /\ Ui.show_all [py "Hello"; []; py "World"] steps
       = Some {| Ui.orig_full_text :=
                   py "Hello" ++ [0x0A; 0x0A]%N ++ py "World" ++ [0x0A%N];
                 Ui.trans_full_text :=
                   concat (List.map (fun l => l ++ [0x0A%N])
                                    (List.filter truthy out)) |}.
Proof.
  exact (display_after_stream stub_pretrained stub_generate new_session
           (Some (py "en2ar")) [py "Hello"; []; py "World"] 4
           (stub_answers fresh (Some (py "en2ar"))
              [py "Hello"; []; py "World"]
              (fun line _ => ex_intro _ (py "Helsinki-NLP/opus-mt-en-ar")
                                      eq_refl))
           ltac:(simpl; lia)).
Defined.

(** ** The file mode of the command line *)

Section FileMode.

Variable from_pretrained : pystr -> option pystr.
Variable generate : pystr -> pystr -> reply pystr.
Variable page_reader : pystr -> reply (list (reply pystr)).
Variable open_w : pystr -> option pystr.
Variable f_write : pystr -> pystr -> option (pystr * pystr).
Variable repr : pystr -> pystr.
Variable lower : pystr -> pystr.
Variable decode : pystr -> reply pystr.

Local Abbreviation translate_text := (translate_text from_pretrained generate).
Local Abbreviation translate_file_body :=
  (Cli.translate_file_body from_pretrained generate page_reader open_w
                                        f_write repr
                           lower decode).
Local Abbreviation translate_file :=
  (Cli.translate_file from_pretrained generate page_reader open_w
                                        f_write repr lower decode).

Lemma read_source (input_file : pystr) (w : world) :
  match (if Cli.endswith (lower input_file) (py ".pdf")
         then Cli.extract_text_from_pdf page_reader input_file
         else Cli.read_text repr decode input_file) w with
  | (Ok text, w1) => w1 = w /\ source_text page_reader lower decode (files w) input_file text
  | (Raise _, w1) => w1 = w
  | (Exit code, w1) => w1 = w /\ code = 1
  end.
Proof.
  unfold source_text.
  unfold Cli.extract_text_from_pdf, Cli.read_text.
  destruct (Cli.endswith (lower input_file) (py ".pdf"));
    destruct (files w !! input_file) as [content|]; try (split; reflexivity);
    try reflexivity.
  - destruct (Ui.whole_reader page_reader content) as [texts|msg];
      [|split; reflexivity].
    split; [reflexivity|]. now exists texts.
  - destruct (decode content) as [text|msg]; [|reflexivity]. now split.
Qed.

(** How the [try] block of [translate_file] can end. *)
Lemma translate_file_body_result (input_file output_file : pystr)
                                 (direction : option pystr) (w : world) :
  match fst (translate_file_body input_file output_file direction w) with
  | Ok _ =>
      exists text translated,
        source_text page_reader lower decode (files w) input_file text
        /\ translate_text text direction (translator w)
           = (Ok translated,
              translator (snd (translate_file_body input_file output_file
                                                   direction w)))
        /\ files (snd (translate_file_body input_file output_file direction w))
           = <[output_file := translated]> (files w)
  | Raise _ =>
      files (snd (translate_file_body input_file output_file direction w))
      = files w
      \/ exists text translated msg written,
           source_text page_reader lower decode (files w) input_file text
           /\ fst (translate_text text direction (translator w)) = Ok translated
           /\ open_w output_file = None
           /\ f_write output_file translated = Some (msg, written)
           /\ files (snd (translate_file_body input_file output_file
                                              direction w))
              = <[output_file := written]> (files w)
  | Exit code =>
      code = 1
      /\ files (snd (translate_file_body input_file output_file direction w))
         = files w
  end.
Proof.
  unfold Cli.translate_file_body.
  pose proof (read_source input_file w) as Hsrc.
  unfold bind.
  destruct ((if Cli.endswith (lower input_file) (py ".pdf")
             then Cli.extract_text_from_pdf page_reader input_file
             else Cli.read_text repr decode input_file) w) as [[text|msg|code] w1].
  - destruct Hsrc as (-> & Hs). unfold lift.
    pose proof (translate_text_exit_code from_pretrained generate text
                  direction (translator w)) as Hx.
    destruct (translate_text text direction (translator w))
      as [[translated|msg|code] t1] eqn:Ht; simpl in Hx |- *.
    + unfold write_text.
      destruct (open_w output_file) eqn:Ho; simpl; [now left|].
      destruct (f_write output_file translated) as [[msg written]|] eqn:Hw;
        simpl.
      * right. exists text, translated, msg, written.
        split; [exact Hs|]. split; [now rewrite Ht|]. now repeat split.
      * exists text, translated. now repeat split.
    + now left.
    + split; [now apply Hx | reflexivity].
  - left. now subst w1.
  - destruct Hsrc as (-> & ->). now split.
Qed.


(** X23: when [translate_file] returns, the output file holds what
    [translate_text] returned on the text of the input (the decoded content
    of a text file, or the page texts of a PDF, each followed by a line
    feed), and no other file has changed. *)
Theorem translate_file_output
    (input_file output_file : pystr) (direction : option pystr) (w : world) :
  fst (translate_file input_file output_file direction w) = Ok tt ->
  exists text translated,
    source_text page_reader lower decode (files w) input_file text
    /\ fst (translate_text text direction (translator w)) = Ok translated
    /\ files (snd (translate_file input_file output_file direction w))
       = <[output_file := translated]> (files w).
Proof.
  unfold Cli.translate_file, try_except.
  pose proof (translate_file_body_result input_file output_file direction w)
    as H.
  destruct (translate_file_body input_file output_file direction w)
    as [[[]|msg|code] w1]; simpl in H |- *; try discriminate.
  intros _. destruct H as (text & translated & Hs & Ht & Hf).
  exists text, translated. split; [exact Hs|]. split; [now rewrite Ht | exact Hf].
Qed.

End FileMode.

Lemma translate_file_output_witness :
  exists text translated,
    source_text torn_pdf stub_lower stub_decode (files notes_world)
                (py "notes.txt") text
    /\ fst (translate_text stub_pretrained stub_generate text None
                           (translator notes_world)) = Ok translated
    /\ files (snd (Cli.translate_file stub_pretrained stub_generate torn_pdf
                     stub_open stub_write stub_repr stub_lower stub_decode
                     (py "notes.txt") (py "notes.ar.txt") None notes_world))
       = <[py "notes.ar.txt" := translated]> (files notes_world).
Proof.
  apply (translate_file_output stub_pretrained stub_generate torn_pdf
           stub_open stub_write stub_repr stub_lower stub_decode
           (py "notes.txt") (py "notes.ar.txt") None notes_world).
  vm_compute. reflexivity.
Defined.

Example translate_file_failed_write :
  Cli.translate_file stub_pretrained stub_generate torn_pdf stub_open
                     full_disk stub_repr stub_lower stub_decode
                     (py "notes.txt") (py "notes.ar.txt") None notes_world
  = (Exit 1,
     {| translator := {| models := [py "en2ar"];
                         calls := [Detect (py "Hello");
                                   Generate (py "en2ar") (py "Hello")] |};
        tasks := ∅;
        files := <[py "notes.ar.txt" := []]> (files notes_world);
        journal := [WriteFile (py "notes.ar.txt")] |}).
Proof. vm_compute. reflexivity. Qed.

Example translate_file_missing_input :
  Cli.translate_file stub_pretrained stub_generate torn_pdf stub_open
  stub_write stub_repr
                     stub_lower stub_decode
                     (py "nothing.txt") (py "out.txt") None notes_world
  = (Exit 1, notes_world).
Proof. vm_compute. reflexivity. Qed.
